(** * algorithms-keeper: review record and naming-convention rule

    A shallow embedding of
    - [algorithms_keeper/parser/record.py]: [ReviewComment] and
      [PullRequestReviewRecord] with [add_comments], [add_error],
      [fill_labels], [collect_comments] and [_lineno_exist];
    - [algorithms_keeper/parser/rules/naming_convention.py]:
      [_any_uppercase_letter] and the visitors of [NamingConventionRule].

    Python [str] values are sequences of Unicode code points, integers are
    [Z], a [list] is a [list], the [set] of violated rules is a [gset], and
    the insertion-ordered [dict] [RULE_TO_LABEL] is an association list.
    Objects mutated in place (the record, the comments it owns) are threaded
    explicitly: every method returns the record it leaves behind. *)

From Stdlib Require Import ZArith NArith String Ascii.
From stdpp Require Import base decidable list gmap sets.

Local Open Scope Z_scope.
#[local] Set Warnings "-clear-no-such-hyp".

(** ** Python strings *)

(** A character is its code point; a [str] is the list of its characters. *)
Abbreviation char := N (only parsing).
Abbreviation str := (list N) (only parsing).

(** A literal of the source, read character by character. *)
Definition lit (s : string) : str :=
  N_of_ascii <$> list_ascii_of_string s.

(** The line feed character, written [\n] in the source. *)
Definition LF : str := [10%N].

(** [sep.join(parts)]. *)
Fixpoint join (sep : str) (parts : list str) : str :=
  match parts with
  | [] => []
  | [p] => p
  | p :: rest => p ++ sep ++ join sep rest
  end.

(** ** record.py *)

(** The labels of [algorithms_keeper.constants.Label] that [RULE_TO_LABEL]
    refers to. The module is outside the two files embedded here, so its
    three constants are taken as parameters. *)
Class Label := {
  DESCRIPTIVE_NAME : str;
  REQUIRE_TEST : str;
  TYPE_HINT : str
}.

(** Mapping of rule to the appropriate label, in the order the dictionary
    literal lists its items. *)
Definition RULE_TO_LABEL `{Label} : list (str * str) :=
  [ (lit "RequireDescriptiveNameRule", DESCRIPTIVE_NAME);
    (lit "RequireDoctestRule", REQUIRE_TEST);
    (lit "RequireTypeHintRule", TYPE_HINT) ].

(** The fields of [fixit]'s [BaseLintRuleReport] that the record reads. *)
Module Report.
Record t := mk { code : str; message : str; line : Z }.
End Report.

Record ReviewComment := mkReviewComment {
  body : str;
  path : str;
  line : Z;
  side : str
}.

(** The generated [__init__]: [side] is not an argument ([init=False]) and
    takes its default. *)
Definition new_ReviewComment (body path : str) (line : Z) : ReviewComment :=
  {| body := body; path := path; line := line; side := lit "RIGHT" |}.

Record PullRequestReviewRecord := mkRecord {
  labels_to_add : list str;
  labels_to_remove : list str;
  _comments : list ReviewComment;
  _violated_rules : gset str
}.

(** [PullRequestReviewRecord()]: every field from its default factory. *)
Definition new_record : PullRequestReviewRecord :=
  {| labels_to_add := []; labels_to_remove := [];
     _comments := []; _violated_rules := ∅ |}.

Definition with_comments (self : PullRequestReviewRecord)
    (cs : list ReviewComment) : PullRequestReviewRecord :=
  {| labels_to_add := labels_to_add self;
     labels_to_remove := labels_to_remove self;
     _comments := cs;
     _violated_rules := _violated_rules self |}.

Definition with_violated (self : PullRequestReviewRecord)
    (vs : gset str) : PullRequestReviewRecord :=
  {| labels_to_add := labels_to_add self;
     labels_to_remove := labels_to_remove self;
     _comments := _comments self;
     _violated_rules := vs |}.

Definition with_labels (self : PullRequestReviewRecord)
    (add rem : list str) : PullRequestReviewRecord :=
  {| labels_to_add := add;
     labels_to_remove := rem;
     _comments := _comments self;
     _violated_rules := _violated_rules self |}.

(** [comment.line == lineno and comment.path == filepath]. *)
Definition at_location (lineno : Z) (filepath : str) (comment : ReviewComment) : bool :=
  bool_decide (line comment = lineno) && bool_decide (path comment = filepath).

(** [comment.body += f"\n\n{body}"]. *)
Definition append_body (comment : ReviewComment) (text : str) : ReviewComment :=
  {| body := body comment ++ (LF ++ LF) ++ text;
     path := path comment; line := line comment; side := side comment |}.

(** The loop of [_lineno_exist] over [self._comments]: the first comment at
    the location has its body extended and the loop returns [True]; when the
    loop runs out the result is [False] and nothing has changed. *)
Fixpoint lineno_exist_loop (comments : list ReviewComment)
    (lineno : Z) (filepath text : str) : list ReviewComment * bool :=
  match comments with
  | [] => ([], false)
  | comment :: rest =>
      if at_location lineno filepath comment
      then (append_body comment text :: rest, true)
      else let '(rest', found) := lineno_exist_loop rest lineno filepath text in
           (comment :: rest', found)
  end.

Definition _lineno_exist (self : PullRequestReviewRecord)
    (lineno : Z) (filepath text : str) : PullRequestReviewRecord * bool :=
  let '(cs, found) := lineno_exist_loop (_comments self) lineno filepath text in
  (with_comments self cs, found).

(** One iteration of the loop of [add_comments]. *)
Definition add_comments_body (filepath : str)
    (self : PullRequestReviewRecord) (report : Report.t) : PullRequestReviewRecord :=
  let line := Report.line report in
  let message := Report.message report in
  let self := with_violated self ({[ Report.code report ]} ∪ _violated_rules self) in
  let '(self, found) := _lineno_exist self line filepath message in
  if found then self
  else with_comments self (_comments self ++ [new_ReviewComment message filepath line]).

Definition add_comments (self : PullRequestReviewRecord)
    (reports : list Report.t) (filepath : str) : PullRequestReviewRecord :=
  foldl (add_comments_body filepath) self reports.

(** The body that [add_error] builds from its two f-strings. *)
Definition error_body (message filepath : str) : str :=
  lit "An error occured while parsing the file: `" ++ filepath ++ lit "`" ++ LF
  ++ lit "```python" ++ LF ++ message ++ LF ++ lit "```".

Definition add_error (self : PullRequestReviewRecord)
    (message filepath : str) (lineno : option Z) : PullRequestReviewRecord :=
  let lineno := match lineno with None => 1 | Some n => n end in
  let body := error_body message filepath in
  with_comments self (_comments self ++ [new_ReviewComment body filepath lineno]).

(** One iteration of the loop of [fill_labels], on the two label lists. *)
Definition fill_labels_body (violated : gset str) (current_labels : list str)
    (acc : list str * list str) (item : str * str) : list str * list str :=
  let '(to_add, to_remove) := acc in
  let '(rule, label) := item in
  if bool_decide (rule ∈ violated) then
    if bool_decide (label ∉ current_labels) && bool_decide (label ∉ to_add)
    then (to_add ++ [label], to_remove)
    else (to_add, to_remove)
  else if bool_decide (label ∈ current_labels) && bool_decide (label ∉ to_remove)
  then (to_add, to_remove ++ [label])
  else (to_add, to_remove).

(** The loop of [fill_labels] over the items of a mapping. *)
Definition fill_labels_items (items : list (str * str)) (violated : gset str)
    (current_labels : list str) (acc : list str * list str) : list str * list str :=
  foldl (fill_labels_body violated current_labels) acc items.

Definition fill_labels `{Label} (self : PullRequestReviewRecord)
    (current_labels : list str) : PullRequestReviewRecord :=
  let '(to_add, to_remove) :=
    fill_labels_items RULE_TO_LABEL (_violated_rules self) current_labels
      (labels_to_add self, labels_to_remove self) in
  with_labels self to_add to_remove.

(** The values of the dictionaries [dataclasses.asdict] builds here. *)
Inductive pyvalue :=
| VStr (s : str)
| VInt (n : Z).

(** [asdict(comment)]: one item per field, in field order. *)
Definition asdict (comment : ReviewComment) : list (str * pyvalue) :=
  [ (lit "body", VStr (body comment));
    (lit "path", VStr (path comment));
    (lit "line", VInt (line comment));
    (lit "side", VStr (side comment)) ].

Definition collect_comments (self : PullRequestReviewRecord) : list (list (str * pyvalue)) :=
  asdict <$> _comments self.

(** The public interface as a caller drives it: a call, and a run of calls
    on a record. *)
Inductive call :=
| AddComments (reports : list Report.t) (filepath : str)
| AddError (message filepath : str) (lineno : option Z)
| FillLabels (current_labels : list str).

Definition perform `{Label} (self : PullRequestReviewRecord) (c : call)
    : PullRequestReviewRecord :=
  match c with
  | AddComments reports filepath => add_comments self reports filepath
  | AddError message filepath lineno => add_error self message filepath lineno
  | FillLabels current_labels => fill_labels self current_labels
  end.

Definition run `{Label} (self : PullRequestReviewRecord) (calls : list call)
    : PullRequestReviewRecord :=
  foldl perform self calls.

(** ** rules/naming_convention.py *)

(** [str.isupper] and [str.islower] on a one-character string, that is the
    case tables of the interpreter's Unicode database. They belong to the
    Python runtime, not to this repository, and are taken as parameters. *)
Class UnicodeData := {
  isupper : char -> bool;
  islower : char -> bool
}.

Definition in_range (lo hi c : N) : bool := ((lo <=? c) && (c <=? hi))%N.

(** The two tables on the Basic Latin and Latin-1 Supplement blocks (code
    points below 256), where they are what CPython answers. Above that
    block this instance answers [False] twice, which is CPython's answer for
    the characters of scripts without case such as the CJK ideographs
    (U+4E00 to U+9FFF). It is used for concrete runs only; the general
    theorems hold for every [UnicodeData]. *)
Definition latin1_isupper (c : char) : bool :=
  in_range 65 90 c || in_range 192 214 c || in_range 216 222 c.

Definition latin1_islower (c : char) : bool :=
  in_range 97 122 c || (c =? 170)%N || (c =? 181)%N || (c =? 186)%N
  || in_range 223 246 c || in_range 248 255 c.

Definition latin1 : UnicodeData :=
  {| isupper := latin1_isupper; islower := latin1_islower |}.

#[local] Set Warnings "-register-all".

(** The expressions of [libcst] that can stand where the rule looks for a
    [Name]. A [Tuple] or a [List_] is kept by the values of its elements. *)
Inductive expr :=
| Name (value : str)
| Tuple (elements : list expr)
| List_ (elements : list expr)
| Attribute (value : expr) (attr : str)
| Subscript (value : expr)
| OtherExpression.

(** The nodes the rule has a visitor for, with the fields it reads. In
    [libcst] the [name] of a [ClassDef], [FunctionDef] and [Param] is always
    a [Name] node and is kept here by its [value]; a [target] is any
    expression; the [value] of an [AnnAssign] is optional. *)
Inductive node :=
| ClassDef (name : str)
| FunctionDef (name : str)
| Param (name : str)
| AnnAssign (target : expr) (value : option expr)
| AssignTarget (target : expr)
| For (target : expr)
| NamedExpr (target : expr).

(** What [self.report(node, message)] records. *)
Record RuleReport := mkRuleReport {
  report_node : node;
  report_message : str
}.

Definition INVALID_CAMEL_CASE_NAME (nodename : str) : str :=
  lit "Class names should follow the [`CamelCase`]"
  ++ lit "(https://en.wikipedia.org/wiki/Camel_case) naming convention. "
  ++ lit "Please update the name of the class `" ++ nodename ++ lit "` accordingly. ".

Definition INVALID_SNAKE_CASE_NAME (nodetype nodename : str) : str :=
  lit "Variable and function names should follow the [`snake_case`]"
  ++ lit "(https://en.wikipedia.org/wiki/Snake_case) naming convention. "
  ++ lit "Please update the name of the " ++ nodetype ++ lit " `" ++ nodename
  ++ lit "` accordingly. ".

Definition _any_uppercase_letter `{UnicodeData} (name : str) : bool :=
  existsb isupper name.

(** The dictionary of captures that [m.extract] returns on a match. *)
Abbreviation captures := (list (str * str)) (only parsing).

Fixpoint dict_get (d : captures) (key : str) : option str :=
  match d with
  | [] => None
  | (k, v) :: rest => if bool_decide (k = key) then Some v else dict_get rest key
  end.

(** [m.Name(value=m.SaveMatchedNode(m.MatchIfTrue(pred), key))] against an
    expression: only a [Name] whose value satisfies [pred] matches, and the
    value is saved under [key]. *)
Definition match_Name (pred : str -> bool) (key : str) (e : expr) : option captures :=
  match e with
  | Name value => if pred value then Some [(key, value)] else None
  | _ => None
  end.

Definition namekey : str := lit "nodename".

(** [m.extract(node, m.TypeOf(m.FunctionDef, m.Param)(name=...))]. *)
Definition extract_by_name `{UnicodeData} (n : node) : option captures :=
  match n with
  | FunctionDef name | Param name =>
      match_Name _any_uppercase_letter namekey (Name name)
  | _ => None
  end.

(** [m.extract(node, m.TypeOf(m.AnnAssign, m.AssignTarget, m.For,
    m.NamedExpr)(target=...))]. *)
Definition extract_by_target `{UnicodeData} (n : node) : option captures :=
  match n with
  | AnnAssign target _ | AssignTarget target | For target | NamedExpr target =>
      match_Name _any_uppercase_letter namekey target
  | _ => None
  end.

(** [a or b] on results of [m.extract]: [None] and the empty dictionary are
    false. *)
Definition py_or (a b : option captures) : option captures :=
  match a with
  | Some (_ :: _) => a
  | _ => b
  end.

(** The visitors return the reports they emit, or [None] when they raise. *)
Definition _validate_snake_case_name `{UnicodeData} (n : node) (nodetype : str)
    : option (list RuleReport) :=
  let extracted := py_or (extract_by_name n) (extract_by_target n) in
  match extracted with
  | None => Some []
  | Some d =>
      match dict_get d namekey with
      | Some nodename =>
          Some [mkRuleReport n (INVALID_SNAKE_CASE_NAME nodetype nodename)]
      | None => None
      end
  end.

Definition underscore : char := 95%N.

Definition visit_ClassDef `{UnicodeData} (n : node) : option (list RuleReport) :=
  match n with
  | ClassDef nodename =>
      match nodename with
      | [] => None
      | first :: _ =>
          if islower first || bool_decide (underscore ∈ nodename)
          then Some [mkRuleReport n (INVALID_CAMEL_CASE_NAME nodename)]
          else Some []
      end
  | _ => Some []
  end.

Definition visit_AnnAssign `{UnicodeData} (n : node) : option (list RuleReport) :=
  match n with
  | AnnAssign _ None => Some []
  | _ => _validate_snake_case_name n (lit "variable")
  end.

Definition visit_AssignTarget `{UnicodeData} (n : node) : option (list RuleReport) :=
  _validate_snake_case_name n (lit "variable").

Definition visit_For `{UnicodeData} (n : node) : option (list RuleReport) :=
  _validate_snake_case_name n (lit "variable").

Definition visit_FunctionDef `{UnicodeData} (n : node) : option (list RuleReport) :=
  _validate_snake_case_name n (lit "function").

Definition visit_NamedExpr `{UnicodeData} (n : node) : option (list RuleReport) :=
  _validate_snake_case_name n (lit "variable").

Definition visit_Param `{UnicodeData} (n : node) : option (list RuleReport) :=
  _validate_snake_case_name n (lit "parameter").

(** The visitor dispatch of the framework: a node goes to the method named
    after its class. *)
Definition visit `{UnicodeData} (n : node) : option (list RuleReport) :=
  match n with
  | ClassDef _ => visit_ClassDef n
  | FunctionDef _ => visit_FunctionDef n
  | Param _ => visit_Param n
  | AnnAssign _ _ => visit_AnnAssign n
  | AssignTarget _ => visit_AssignTarget n
  | For _ => visit_For n
  | NamedExpr _ => visit_NamedExpr n
  end.

(** ** Vocabulary of the statements *)

(** A run of [add_comments] calls, each with its reports and its file. *)
Definition add_comments_all (self : PullRequestReviewRecord)
    (calls : list (list Report.t * str)) : PullRequestReviewRecord :=
  foldl (fun self c => add_comments self c.1 c.2) self calls.

(** The reports of a run in the order the loops meet them, each with the
    file of its call. *)
Definition events (calls : list (list Report.t * str)) : list (str * Report.t) :=
  c ← calls; (fun report => (c.2, report)) <$> c.1.

Definition event_at (lineno : Z) (filepath : str) (e : str * Report.t) : bool :=
  bool_decide (Report.line e.2 = lineno) && bool_decide (e.1 = filepath).

(** The messages a run delivers to a location, in call order. *)
Definition delivered (lineno : Z) (filepath : str)
    (calls : list (list Report.t * str)) : list str :=
  (fun e => Report.message e.2) <$> List.filter (event_at lineno filepath) (events calls).

(** A blank line between two messages. *)
Definition blank_line : str := LF ++ LF.

(** The comments of a list that sit at a location, in list order. *)
Definition comments_at (lineno : Z) (filepath : str)
    (comments : list ReviewComment) : list ReviewComment :=
  List.filter (at_location lineno filepath) comments.

(** What a location holds once it has taken in [msgs]: a location that
    was empty gets one comment with the messages joined by blank lines, and
    the first comment of an occupied location gets each message appended. *)
Definition absorb (lineno : Z) (filepath : str)
    (present : list ReviewComment) (msgs : list str) : list ReviewComment :=
  match present with
  | [] =>
      match msgs with
      | [] => []
      | _ :: _ => [new_ReviewComment (join blank_line msgs) filepath lineno]
      end
  | c :: rest => foldl append_body c msgs :: rest
  end.

(** The reading of [add_error] as a merge: the call leaves the comment list
    that [_lineno_exist] would leave when given the error text. *)
Definition add_error_merges (self : PullRequestReviewRecord)
    (message filepath : str) (lineno : Z) : Prop :=
  _comments (add_error self message filepath (Some lineno)) =
  (_lineno_exist self lineno filepath (error_body message filepath)).1.(_comments).

(** A record that holds one comment, at line 1 of [a.py]. *)
Definition one_comment_record : PullRequestReviewRecord :=
  add_comments new_record
    [Report.mk (lit "RequireDoctestRule") (lit "no doctest") 1] (lit "a.py").

(** An item of the mapping needs no action: its rule was violated and its
    label is on the pull request or queued to be added, or its rule was not
    violated and its label is off the pull request or queued to be removed. *)
Definition settled (violated : gset str) (current_labels : list str)
    (acc : list str * list str) (item : str * str) : Prop :=
  if bool_decide (item.1 ∈ violated)
  then item.2 ∈ current_labels \/ item.2 ∈ acc.1
  else item.2 ∉ current_labels \/ item.2 ∈ acc.2.

(** A run of [fill_labels] calls, each with its own list of current labels. *)
Definition fill_labels_all `{Label} (self : PullRequestReviewRecord)
    (currents : list (list str)) : PullRequestReviewRecord :=
  foldl fill_labels self currents.

(** Three distinct labels, for concrete runs. *)
Definition sample_labels : Label :=
  {| DESCRIPTIVE_NAME := lit "require descriptive names";
     REQUIRE_TEST := lit "require tests";
     TYPE_HINT := lit "require type hints" |}.

(** The label lists are justified by the mapping: neither repeats a label,
    every label queued to be added is the label of a violated rule, and
    every label queued to be removed is the label of a rule that was not
    violated. *)
Definition justified (items : list (str * str)) (violated : gset str)
    (acc : list str * list str) : Prop :=
  NoDup acc.1 /\ NoDup acc.2
  /\ (forall label, label ∈ acc.1 ->
        exists rule, (rule, label) ∈ items /\ rule ∈ violated)
  /\ (forall label, label ∈ acc.2 ->
        exists rule, (rule, label) ∈ items /\ rule ∉ violated).

(** Where a comment sits. *)
Definition location (comment : ReviewComment) : str * Z :=
  (path comment, line comment).

(** The locations of a list in the order they are first seen. *)
Fixpoint first_seen (locations : list (str * Z)) : list (str * Z) :=
  match locations with
  | [] => []
  | x :: rest => x :: filter (fun y => y <> x) (first_seen rest)
  end.

(** A list of locations after one more is seen. *)
Definition see (seen : list (str * Z)) (x : str * Z) : list (str * Z) :=
  if bool_decide (x ∈ seen) then seen else seen ++ [x].

(** The object GitHub expects for a review comment: the four keys in field
    order, with [side] the string [RIGHT]. *)
Definition wire_comment (comment : ReviewComment) : list (str * pyvalue) :=
  [ (lit "body", VStr (body comment));
    (lit "path", VStr (path comment));
    (lit "line", VInt (line comment));
    (lit "side", VStr (lit "RIGHT")) ].

(** The name starts with an uppercase letter. *)
Definition starts_uppercase `{UnicodeData} (nodename : str) : Prop :=
  exists first rest, nodename = first :: rest /\ isupper first = true.

(** The class-name rule read as "uppercase first, no underscore": a class
    definition gets exactly one report, carrying the message for its name,
    when its name does not start with an uppercase letter or contains an
    underscore, and gets no report otherwise. *)
Definition class_name_rule_as_stated `{UnicodeData} (nodename : str) : Prop :=
  (~ starts_uppercase nodename \/ underscore ∈ nodename ->
     visit_ClassDef (ClassDef nodename) =
     Some [mkRuleReport (ClassDef nodename) (INVALID_CAMEL_CASE_NAME nodename)])
  /\ (~ (~ starts_uppercase nodename \/ underscore ∈ nodename) ->
      visit_ClassDef (ClassDef nodename) = Some []).

(** The ideograph U+4E2D, a letter without case that can start an
    identifier. *)
Definition ideograph : char := 20013%N.

(** The reports of a visit, by message. *)
Definition messages (result : option (list RuleReport)) : option (list str) :=
  (fun reports : list RuleReport => report_message <$> reports) <$> result.

(** A comment after some calls, against what it was: same place, same
    side, and a body that starts with the old body. *)
Definition extends_comment (old new : ReviewComment) : Prop :=
  location new = location old /\ side new = side old
  /\ body old `prefix_of` body new.

(** The codes of the reports a run of calls hands to [add_comments]. *)
Definition reported_codes (calls : list call) : list str :=
  c ← calls;
  match c with
  | AddComments reports _ => Report.code <$> reports
  | _ => []
  end.

(** ** Location merge *)

Section Merge.
Implicit Types (cs : list ReviewComment) (c : ReviewComment).
Implicit Types (l : Z) (p text : str).

Lemma at_location_append_body l p c text :
  at_location l p (append_body c text) = at_location l p c.
Proof. reflexivity. Qed.

Lemma at_location_new l p l' p' text :
  at_location l p (new_ReviewComment text p' l') =
  bool_decide (l' = l) && bool_decide (p' = p).
Proof. reflexivity. Qed.

Lemma at_location_elsewhere l p l' p' c :
  at_location l p c = true -> (l', p') <> (l, p) -> at_location l' p' c = false.
Proof.
  unfold at_location. intros Hat Hne.
  apply andb_true_iff in Hat as [Hl Hp].
  apply bool_decide_eq_true in Hl, Hp. subst l p.
  apply andb_false_iff.
  destruct (decide (line c = l')) as [<-|Hl]; [right|left];
    apply bool_decide_eq_false; congruence.
Qed.

(** What the loop of [_lineno_exist] does to the comments at its own
    location, and what it answers. *)
Lemma lineno_exist_loop_here cs l p text :
  comments_at l p (lineno_exist_loop cs l p text).1 =
    match comments_at l p cs with
    | [] => []
    | c :: rest => append_body c text :: rest
    end
  /\ (lineno_exist_loop cs l p text).2 =
    match comments_at l p cs with [] => false | _ :: _ => true end.
Proof.
  unfold comments_at.
  induction cs as [|c cs [IH1 IH2]]; [done|]. simpl.
  destruct (at_location l p c) eqn:Hat; simpl.
  - by rewrite at_location_append_body, Hat.
  - destruct (lineno_exist_loop cs l p text) as [rest' found]; simpl in *.
    by rewrite ?Hat.
Qed.

(** The comments at every other location are left as they were. *)
Lemma lineno_exist_loop_elsewhere cs l p text l' p' :
  (l', p') <> (l, p) ->
  comments_at l' p' (lineno_exist_loop cs l p text).1 = comments_at l' p' cs.
Proof.
  unfold comments_at. intros Hne.
  induction cs as [|c cs IH]; [done|]. simpl.
  destruct (at_location l p c) eqn:Hat; simpl.
  - by rewrite at_location_append_body,
      (at_location_elsewhere _ _ _ _ _ Hat Hne).
  - destruct (lineno_exist_loop cs l p text) as [rest' found]; simpl in *.
    by rewrite IH.
Qed.

(** A miss changes nothing. *)
Lemma lineno_exist_loop_miss cs l p text :
  (lineno_exist_loop cs l p text).2 = false ->
  (lineno_exist_loop cs l p text).1 = cs.
Proof.
  induction cs as [|c cs IH]; [done|]. simpl.
  destruct (at_location l p c); [done|].
  destruct (lineno_exist_loop cs l p text) as [rest' found]; simpl in *.
  intros ->. by rewrite IH.
Qed.

(** The comment list after one iteration of [add_comments]. *)
Lemma add_comments_body_comments p self report :
  _comments (add_comments_body p self report) =
    let res := lineno_exist_loop (_comments self)
                 (Report.line report) p (Report.message report) in
    if res.2 then res.1
    else res.1 ++ [new_ReviewComment (Report.message report) p (Report.line report)].
Proof.
  unfold add_comments_body, _lineno_exist. simpl.
  destruct (lineno_exist_loop _ _ _ _) as [cs found]; simpl.
  by destruct found.
Qed.

Lemma add_comments_body_violated p self report :
  _violated_rules (add_comments_body p self report) =
    {[ Report.code report ]} ∪ _violated_rules self.
Proof.
  unfold add_comments_body, _lineno_exist. simpl.
  destruct (lineno_exist_loop _ _ _ _) as [cs found]; simpl.
  by destruct found.
Qed.

Lemma add_comments_body_labels p self report :
  labels_to_add (add_comments_body p self report) = labels_to_add self
  /\ labels_to_remove (add_comments_body p self report) = labels_to_remove self.
Proof.
  unfold add_comments_body, _lineno_exist. simpl.
  destruct (lineno_exist_loop _ _ _ _) as [cs found]; simpl.
  by destruct found.
Qed.

(** A run of calls is one loop over its events. *)
Lemma add_comments_all_events self calls :
  add_comments_all self calls =
    foldl (fun self e => add_comments_body e.1 self e.2) self (events calls).
Proof.
  unfold add_comments_all, events.
  revert self. induction calls as [|[reports p] calls IH]; intros self; [done|].
  simpl. rewrite foldl_app, IH. f_equal.
  unfold add_comments. simpl.
  generalize self. clear. induction reports as [|r reports IH]; intros self; [done|].
  simpl. apply IH.
Qed.
End Merge.

Section AddComments.
Implicit Types (cs : list ReviewComment) (c : ReviewComment).
Implicit Types (l : Z) (p text : str).

Lemma join_cons_cons sep (m x : str) (rest : list str) :
  join sep ((m ++ sep ++ x) :: rest) = m ++ sep ++ join sep (x :: rest).
Proof.
  destruct rest as [|y rest]; [done|].
  change (join sep ((m ++ sep ++ x) :: y :: rest))
    with ((m ++ sep ++ x) ++ sep ++ join sep (y :: rest)).
  change (join sep (x :: y :: rest)) with (x ++ sep ++ join sep (y :: rest)).
  by rewrite <- !app_assoc.
Qed.

Lemma foldl_append_body_new l p (m : str) (msgs : list str) :
  foldl append_body (new_ReviewComment m p l) msgs =
  new_ReviewComment (join blank_line (m :: msgs)) p l.
Proof.
  revert m. induction msgs as [|x msgs IH]; intros m; [done|].
  change (foldl append_body (new_ReviewComment m p l) (x :: msgs))
    with (foldl append_body (new_ReviewComment (m ++ blank_line ++ x) p l) msgs).
  rewrite IH. by rewrite join_cons_cons.
Qed.

Lemma absorb_cons l p (present : list ReviewComment) (m : str) (msgs : list str) :
  absorb l p (absorb l p present [m]) msgs = absorb l p present (m :: msgs).
Proof.
  destruct present as [|c rest]; simpl; [|done].
  by rewrite foldl_append_body_new.
Qed.

Lemma add_comments_body_here l self report p :
  Report.line report = l ->
  comments_at l p (_comments (add_comments_body p self report)) =
  absorb l p (comments_at l p (_comments self)) [Report.message report].
Proof.
  intros <-. rewrite add_comments_body_comments. simpl.
  destruct (lineno_exist_loop_here (_comments self) (Report.line report) p
              (Report.message report)) as [Hcs Hfound].
  rewrite Hfound.
  destruct (comments_at _ _ (_comments self)) as [|c rest] eqn:Hpresent.
  - unfold comments_at in *. rewrite List.filter_app, Hcs. simpl.
    rewrite at_location_new. by rewrite !bool_decide_eq_true_2.
  - by rewrite Hcs.
Qed.

Lemma add_comments_body_elsewhere l p self report p' :
  event_at l p (p', report) = false ->
  comments_at l p (_comments (add_comments_body p' self report)) =
  comments_at l p (_comments self).
Proof.
  intros Hev. rewrite add_comments_body_comments. simpl.
  assert ((l, p) <> (Report.line report, p')) as Hne.
  { intros [= -> ->]. unfold event_at in Hev. simpl in Hev.
    by rewrite !bool_decide_eq_true_2 in Hev. }
  pose proof (lineno_exist_loop_elsewhere (_comments self) _ _
                (Report.message report) _ _ Hne) as Hcs.
  destruct (lineno_exist_loop _ _ _ _).2; [done|].
  unfold comments_at in *. rewrite List.filter_app, Hcs. simpl.
  rewrite at_location_new. unfold event_at in Hev. simpl in Hev.
  rewrite Hev. by rewrite app_nil_r.
Qed.

(** What a run of calls leaves at a location, from any record. *)
Lemma add_comments_all_at l p self calls :
  comments_at l p (_comments (add_comments_all self calls)) =
  absorb l p (comments_at l p (_comments self)) (delivered l p calls).
Proof.
  rewrite add_comments_all_events. unfold delivered.
  generalize (events calls) as evs. clear calls. intros evs. revert self.
  induction evs as [|[p' report] evs IH]; intros self.
  - simpl. by destruct (comments_at l p (_comments self)).
  - simpl. rewrite IH.
    destruct (event_at l p (p', report)) eqn:Hev.
    + simpl. rewrite <- absorb_cons. f_equal.
      unfold event_at in Hev. simpl in Hev.
      apply andb_true_iff in Hev as [Hl Hp].
      apply bool_decide_eq_true in Hl, Hp. subst p'.
      by apply add_comments_body_here.
    + by rewrite add_comments_body_elsewhere.
Qed.
End AddComments.

(** C1. After any run of [add_comments] calls on a new record, the comments
    at a location (file path and line) are: none when no report was
    delivered there, and otherwise exactly one, whose body is the messages
    delivered there, in call order, with a blank line between each two. *)
Theorem add_comments_one_comment_per_location :
  forall (calls : list (list Report.t * str)) (lineno : Z) (filepath : str),
    comments_at lineno filepath (_comments (add_comments_all new_record calls)) =
    match delivered lineno filepath calls with
    | [] => []
    | msgs => [new_ReviewComment (join blank_line msgs) filepath lineno]
    end.
Proof.
  intros calls lineno filepath.
  rewrite add_comments_all_at. simpl.
  by destruct (delivered lineno filepath calls).
Qed.

(** ** Violated rules *)

Lemma events_codes (calls : list (list Report.t * str)) :
  (fun e => Report.code e.2) <$> events calls =
  c ← calls; Report.code <$> c.1.
Proof.
  unfold events. induction calls as [|c calls IH]; [done|].
  rewrite !bind_cons, fmap_app, IH. f_equal.
  by rewrite <- list_fmap_compose.
Qed.

Lemma foldl_add_comments_body_violated
    (evs : list (str * Report.t)) (self : PullRequestReviewRecord) :
  _violated_rules (foldl (fun self e => add_comments_body e.1 self e.2) self evs) =
  list_to_set ((fun e => Report.code e.2) <$> evs) ∪ _violated_rules self.
Proof.
  revert self. induction evs as [|e evs IH]; intros self; simpl.
  - set_solver.
  - rewrite IH, add_comments_body_violated. set_solver.
Qed.

(** C3. After any run of [add_comments] calls on a new record, the set of
    violated rules is the set of the [code]s of all the reports of all the
    calls, merged into an existing comment or not. *)
Theorem violated_rules_are_all_codes :
  forall calls : list (list Report.t * str),
    _violated_rules (add_comments_all new_record calls) =
    list_to_set (c ← calls; Report.code <$> c.1).
Proof.
  intros calls.
  rewrite add_comments_all_events, foldl_add_comments_body_violated, events_codes.
  simpl. set_solver.
Qed.

(** ** add_error *)

(** C2, as stated, fails: on a record that holds a comment at line 1 of
    [a.py], [add_error] for that location does not leave what the location
    merge leaves; the location then holds two comments. *)
Lemma add_error_does_not_merge :
  comments_at 1 (lit "a.py") (_comments one_comment_record) <> []
  /\ ~ add_error_merges one_comment_record (lit "boom") (lit "a.py") 1
  /\ length (comments_at 1 (lit "a.py")
       (_comments (add_error one_comment_record (lit "boom") (lit "a.py") (Some 1))))
     = 2%nat.
Proof.
  split; [|split].
  - vm_compute. discriminate.
  - unfold add_error_merges. vm_compute. discriminate.
  - vm_compute. reflexivity.
Qed.

(** C2, amended. [add_error] always appends one new comment at the end of
    the comment list, with the error text as body, the file as path and the
    line given (1 when there is none), whether or not the location already
    holds a comment; the comments already there, the labels and the
    violated rules are unchanged. *)
Theorem add_error_appends :
  forall (self : PullRequestReviewRecord) (message filepath : str) (lineno : option Z),
    _comments (add_error self message filepath lineno) =
      _comments self ++
      [new_ReviewComment (error_body message filepath) filepath (default 1 lineno)]
    /\ comments_at (default 1 lineno) filepath
         (_comments (add_error self message filepath lineno)) =
       comments_at (default 1 lineno) filepath (_comments self) ++
       [new_ReviewComment (error_body message filepath) filepath (default 1 lineno)]
    /\ labels_to_add (add_error self message filepath lineno) = labels_to_add self
    /\ labels_to_remove (add_error self message filepath lineno) = labels_to_remove self
    /\ _violated_rules (add_error self message filepath lineno) = _violated_rules self.
Proof.
  intros self message filepath lineno.
  split; [by destruct lineno|].
  split; [|done].
  unfold add_error, comments_at. simpl.
  rewrite List.filter_app. simpl.
  rewrite at_location_new.
  destruct lineno; simpl; by rewrite !bool_decide_eq_true_2.
Qed.

(** ** fill_labels *)

Section FillLabels.
Context (violated : gset str) (current_labels : list str).
Implicit Types (acc : list str * list str) (item : str * str).
Implicit Types (items : list (str * str)).

Local Abbreviation step := (fill_labels_body violated current_labels).
Local Abbreviation loop := (fun items => fill_labels_items items violated current_labels).

Local Ltac split_body :=
  unfold fill_labels_body, settled; simpl;
  repeat (case_bool_decide; simpl).

Lemma fill_labels_body_settled acc item :
  settled violated current_labels acc item -> step acc item = acc.
Proof. destruct acc, item. split_body; tauto. Qed.

Lemma fill_labels_body_settles acc item :
  settled violated current_labels (step acc item) item.
Proof.
  destruct acc, item. split_body; rewrite ?elem_of_app, ?list_elem_of_singleton;
    tauto.
Qed.

Lemma fill_labels_body_grows acc item x :
  (x ∈ acc.1 -> x ∈ (step acc item).1) /\ (x ∈ acc.2 -> x ∈ (step acc item).2).
Proof.
  destruct acc, item. split_body; rewrite ?elem_of_app; tauto.
Qed.

Lemma fill_labels_items_grows items acc x :
  (x ∈ acc.1 -> x ∈ (loop items acc).1) /\ (x ∈ acc.2 -> x ∈ (loop items acc).2).
Proof.
  revert acc. induction items as [|item items IH]; intros acc; [done|].
  simpl. destruct (IH (step acc item)), (fill_labels_body_grows acc item x).
  split; auto.
Qed.

Lemma settled_grows acc acc' item :
  (forall x, x ∈ acc.1 -> x ∈ acc'.1) -> (forall x, x ∈ acc.2 -> x ∈ acc'.2) ->
  settled violated current_labels acc item ->
  settled violated current_labels acc' item.
Proof.
  unfold settled. intros H1 H2. case_bool_decide; intros [?|?]; auto.
Qed.

(** Once the loop is over, every item it went through is settled. *)
Lemma fill_labels_items_settles items acc :
  Forall (settled violated current_labels (loop items acc)) items.
Proof.
  revert acc. induction items as [|item items IH]; intros acc; [done|].
  constructor; [|apply IH]. simpl.
  eapply settled_grows; [| |apply fill_labels_body_settles];
    intros x; apply (fill_labels_items_grows items (step acc item) x).
Qed.

(** The loop does nothing when every item is settled. *)
Lemma fill_labels_items_settled items acc :
  Forall (settled violated current_labels acc) items -> loop items acc = acc.
Proof.
  induction 1 as [|item items Hitem _ IH]; [done|].
  simpl. by rewrite fill_labels_body_settled.
Qed.

Lemma fill_labels_items_idempotent items acc :
  loop items (loop items acc) = loop items acc.
Proof. apply fill_labels_items_settled, fill_labels_items_settles. Qed.
End FillLabels.

Lemma fill_labels_unfold `{Label} (self : PullRequestReviewRecord)
    (current_labels : list str) :
  fill_labels self current_labels =
  let acc := fill_labels_items RULE_TO_LABEL (_violated_rules self) current_labels
               (labels_to_add self, labels_to_remove self) in
  with_labels self acc.1 acc.2.
Proof. unfold fill_labels. by destruct (fill_labels_items _ _ _ _). Qed.

(** C4. [fill_labels] is idempotent: a second call with the same current
    labels, the violated rules being what they were, leaves the record, and
    so [labels_to_add] and [labels_to_remove], as the first call left them;
    no entry is added twice. *)
Theorem fill_labels_idempotent :
  forall `{Label} (self : PullRequestReviewRecord) (current_labels : list str),
    fill_labels (fill_labels self current_labels) current_labels =
    fill_labels self current_labels.
Proof.
  intros L self current_labels.
  rewrite (fill_labels_unfold (fill_labels self current_labels)).
  rewrite (fill_labels_unfold self). cbv zeta.
  set (acc := fill_labels_items _ _ _ (labels_to_add self, _)).
  change (fill_labels_items RULE_TO_LABEL _ current_labels _)
    with (fill_labels_items RULE_TO_LABEL (_violated_rules self) current_labels
            (acc.1, acc.2)).
  rewrite <- surjective_pairing. subst acc.
  by rewrite fill_labels_items_idempotent.
Qed.

Lemma NoDup_snd_eq {A B} (l : list (A * B)) (a a' : A) (b : B) :
  NoDup l.*2 -> (a, b) ∈ l -> (a', b) ∈ l -> a = a'.
Proof.
  induction l as [|[a0 b0] l IH]; simpl; intros Hnodup Ha Ha'.
  - by apply elem_of_nil in Ha.
  - apply NoDup_cons in Hnodup as [Hfresh Hnodup].
    apply elem_of_cons in Ha as [Ha|Ha]; apply elem_of_cons in Ha' as [Ha'|Ha'].
    + congruence.
    + simplify_eq. destruct Hfresh.
      by apply (list_elem_of_fmap_2 snd _ (a', b0)).
    + simplify_eq. destruct Hfresh.
      by apply (list_elem_of_fmap_2 snd _ (a, b0)).
    + by apply IH.
Qed.

Section LabelLists.
Context (items : list (str * str)) (violated : gset str).
Implicit Types (acc : list str * list str) (item : str * str).

Lemma fill_labels_body_justified current_labels acc item :
  item ∈ items ->
  justified items violated acc ->
  justified items violated (fill_labels_body violated current_labels acc item).
Proof.
  destruct acc as [to_add to_remove], item as [rule label].
  intros Hin (Hadd & Hrem & Hwhy_add & Hwhy_rem).
  unfold fill_labels_body, justified in *; simpl in *.
  repeat (case_bool_decide; simpl); repeat split; auto.
  - apply NoDup_app; repeat split; [done| |apply NoDup_singleton].
    intros x Hx ->%list_elem_of_singleton. tauto.
  - intros x [Hx| ->%list_elem_of_singleton]%elem_of_app; eauto.
  - apply NoDup_app; repeat split; [done| |apply NoDup_singleton].
    intros x Hx ->%list_elem_of_singleton. tauto.
  - intros x [Hx| ->%list_elem_of_singleton]%elem_of_app; eauto.
Qed.

Lemma fill_labels_items_justified current_labels (todo : list (str * str)) acc :
  (forall item, item ∈ todo -> item ∈ items) ->
  justified items violated acc ->
  justified items violated (fill_labels_items todo violated current_labels acc).
Proof.
  revert acc. induction todo as [|item todo IH]; intros acc Hsub Hacc; [done|].
  simpl. apply IH.
  - intros i Hi. apply Hsub. by right.
  - apply fill_labels_body_justified; [|done]. apply Hsub. by left.
Qed.

(** When no two rules share a label, justified lists are disjoint. *)
Lemma justified_disjoint acc label :
  NoDup items.*2 -> justified items violated acc ->
  label ∈ acc.1 -> label ∉ acc.2.
Proof.
  intros Hnodup (_ & _ & Hwhy_add & Hwhy_rem) Hadd Hrem.
  destruct (Hwhy_add _ Hadd) as (rule & Hrule & Hviolated).
  destruct (Hwhy_rem _ Hrem) as (rule' & Hrule' & Hnot).
  by rewrite (NoDup_snd_eq _ _ _ _ Hnodup Hrule Hrule') in Hviolated.
Qed.
End LabelLists.

Lemma fill_labels_violated `{Label} (self : PullRequestReviewRecord)
    (current_labels : list str) :
  _violated_rules (fill_labels self current_labels) = _violated_rules self.
Proof. by rewrite fill_labels_unfold. Qed.

Lemma fill_labels_all_justified `{Label} (currents : list (list str))
    (self : PullRequestReviewRecord) :
  justified RULE_TO_LABEL (_violated_rules self)
    (labels_to_add self, labels_to_remove self) ->
  let final := fill_labels_all self currents in
  _violated_rules final = _violated_rules self
  /\ justified RULE_TO_LABEL (_violated_rules self)
       (labels_to_add final, labels_to_remove final).
Proof.
  unfold fill_labels_all.
  revert self. induction currents as [|current currents IH]; intros self Hself; [done|].
  simpl. destruct (IH (fill_labels self current)) as [Hv Hj].
  - rewrite fill_labels_violated, fill_labels_unfold.
    cbv zeta. unfold with_labels. cbn [labels_to_add labels_to_remove].
    rewrite <- surjective_pairing. by apply fill_labels_items_justified.
  - by rewrite fill_labels_violated in Hv, Hj.
Qed.

(** C5. Provided the three labels of the mapping are distinct: after any
    run of [fill_labels] calls (each with its own current labels) on a
    record whose label lists started empty, no label occurs twice in
    [labels_to_add], none occurs twice in [labels_to_remove], and no label
    is in both. *)
Theorem label_lists_disjoint_without_repeats :
  forall `{Label},
    NoDup RULE_TO_LABEL.*2 ->
    forall (comments : list ReviewComment) (violated : gset str)
           (currents : list (list str)),
      let final := fill_labels_all (mkRecord [] [] comments violated) currents in
      NoDup (labels_to_add final)
      /\ NoDup (labels_to_remove final)
      /\ (forall label, label ∈ labels_to_add final -> label ∉ labels_to_remove final).
Proof.
  intros L Hdistinct comments violated currents final.
  destruct (fill_labels_all_justified currents (mkRecord [] [] comments violated))
    as [_ Hj].
  { repeat split; simpl; try apply NoDup_nil_2;
      intros label Hin; by apply elem_of_nil in Hin. }
  fold final in Hj. simpl in Hj.
  repeat split; [apply Hj..|].
  intros label. by apply (justified_disjoint _ _ _ _ Hdistinct Hj).
Qed.

(** The three sample labels are distinct; a record with one violated
    rule, finalized twice with different current labels. *)
Lemma label_lists_disjoint_without_repeats_witness :
  NoDup (@RULE_TO_LABEL sample_labels).*2
  /\ (let final := @fill_labels_all sample_labels
                     (mkRecord [] [] [] {[ lit "RequireDoctestRule" ]})
                     [[lit "require type hints"]; []] in
      NoDup (labels_to_add final)
      /\ NoDup (labels_to_remove final)
      /\ (forall label, label ∈ labels_to_add final -> label ∉ labels_to_remove final)).
Proof.
  assert (NoDup (@RULE_TO_LABEL sample_labels).*2) as Hdistinct.
  { apply (bool_decide_unpack _). vm_compute. exact I. }
  split; [exact Hdistinct|].
  exact (@label_lists_disjoint_without_repeats sample_labels Hdistinct []
           {[ lit "RequireDoctestRule" ]} [[lit "require type hints"]; []]).
Defined.

(** The loop only asks the violated set about the rules of the items. *)
Lemma fill_labels_items_ext (items : list (str * str)) (violated violated' : gset str)
    (current_labels : list str) (acc : list str * list str) :
  (forall item, item ∈ items -> item.1 ∈ violated <-> item.1 ∈ violated') ->
  fill_labels_items items violated current_labels acc =
  fill_labels_items items violated' current_labels acc.
Proof.
  revert acc. induction items as [|[rule label] items IH]; intros acc Hsame; [done|].
  simpl. rewrite <- IH by (intros i Hi; apply Hsame; by right).
  f_equal. destruct acc as [to_add to_remove]. unfold fill_labels_body.
  rewrite (bool_decide_ext (rule ∈ violated) (rule ∈ violated')); [done|].
  apply (Hsame (rule, label)). by left.
Qed.

(** C6. A violated rule that is not a key of [RULE_TO_LABEL] changes
    nothing in what [fill_labels] computes: with it in the violated set,
    [labels_to_add] and [labels_to_remove] come out as they do with it
    taken out of the set. The call returns in both cases. *)
Theorem unknown_rule_is_ignored :
  forall `{Label} (self : PullRequestReviewRecord) (rule : str)
         (current_labels : list str),
    rule ∉ RULE_TO_LABEL.*1 ->
    let present :=
      fill_labels (with_violated self ({[ rule ]} ∪ _violated_rules self))
        current_labels in
    let absent :=
      fill_labels (with_violated self (_violated_rules self ∖ {[ rule ]}))
        current_labels in
    labels_to_add present = labels_to_add absent
    /\ labels_to_remove present = labels_to_remove absent.
Proof.
  intros L self rule current_labels Hunknown present absent.
  subst present absent. rewrite !fill_labels_unfold. cbv zeta.
  unfold with_labels, with_violated.
  cbn [labels_to_add labels_to_remove _violated_rules].
  rewrite (fill_labels_items_ext RULE_TO_LABEL ({[ rule ]} ∪ _violated_rules self)
             (_violated_rules self ∖ {[ rule ]})); [done|].
  intros [r l] Hin. simpl.
  assert (r <> rule) as Hne.
  { intros ->. apply Hunknown. by apply (list_elem_of_fmap_2 fst _ (rule, l)). }
  set_solver.
Qed.

(** [NamingConventionRule], the code of the reports of the naming rule, is
    not a key of the mapping. *)
Lemma unknown_rule_is_ignored_witness :
  (lit "NamingConventionRule" ∉ (@RULE_TO_LABEL sample_labels).*1)
  /\ (let present :=
        @fill_labels sample_labels
          (with_violated one_comment_record
             ({[ lit "NamingConventionRule" ]} ∪ _violated_rules one_comment_record))
          [lit "require type hints"] in
      let absent :=
        @fill_labels sample_labels
          (with_violated one_comment_record
             (_violated_rules one_comment_record ∖ {[ lit "NamingConventionRule" ]}))
          [lit "require type hints"] in
      labels_to_add present = labels_to_add absent
      /\ labels_to_remove present = labels_to_remove absent).
Proof.
  assert (lit "NamingConventionRule" ∉ (@RULE_TO_LABEL sample_labels).*1) as Hunknown.
  { apply (bool_decide_unpack _). vm_compute. exact I. }
  split; [exact Hunknown|].
  exact (@unknown_rule_is_ignored sample_labels one_comment_record
           (lit "NamingConventionRule") [lit "require type hints"] Hunknown).
Defined.

(** ** collect_comments *)

Section Collect.
Implicit Types (cs : list ReviewComment) (c : ReviewComment).
Implicit Types (l : Z) (p text : str).

(** The loop of [_lineno_exist] only touches bodies. *)
Lemma lineno_exist_loop_keeps {A} (f : ReviewComment -> A) cs l p text :
  (forall c, f (append_body c text) = f c) ->
  f <$> (lineno_exist_loop cs l p text).1 = f <$> cs.
Proof.
  intros Hf. induction cs as [|c cs IH]; [done|]. cbn [lineno_exist_loop].
  destruct (at_location l p c); [cbn [fst]; by rewrite !fmap_cons, Hf|].
  destruct (lineno_exist_loop cs l p text) as [rest' found].
  cbn [fst] in *. by rewrite !fmap_cons, IH.
Qed.

Lemma at_location_spec l p c :
  at_location l p c = bool_decide (location c = (p, l)).
Proof.
  unfold at_location, location.
  repeat case_bool_decide; simpl; congruence.
Qed.

Lemma lineno_exist_loop_found cs l p text :
  (lineno_exist_loop cs l p text).2 = bool_decide ((p, l) ∈ location <$> cs).
Proof.
  induction cs as [|c cs IH]; [done|].
  cbn [lineno_exist_loop]. rewrite fmap_cons.
  rewrite at_location_spec.
  destruct (decide (location c = (p, l))) as [Hc|Hc].
  - rewrite (bool_decide_eq_true_2 _ Hc). cbn [snd].
    symmetry. apply bool_decide_eq_true. rewrite Hc. by left.
  - rewrite (bool_decide_eq_false_2 _ Hc).
    destruct (lineno_exist_loop cs l p text) as [rest' found].
    cbn [snd] in *. rewrite IH.
    apply bool_decide_ext. rewrite elem_of_cons. naive_solver.
Qed.

Lemma add_comments_body_locations p self report :
  location <$> _comments (add_comments_body p self report) =
  see (location <$> _comments self) (p, Report.line report).
Proof.
  rewrite add_comments_body_comments. cbv zeta. unfold see.
  rewrite lineno_exist_loop_found.
  case_bool_decide; rewrite ?fmap_app;
    by rewrite (lineno_exist_loop_keeps location).
Qed.

Lemma add_comments_body_sides p self report :
  Forall (fun c => side c = lit "RIGHT") (_comments self) ->
  Forall (fun c => side c = lit "RIGHT") (_comments (add_comments_body p self report)).
Proof.
  intros Hside. rewrite add_comments_body_comments. cbv zeta.
  assert (Forall (fun c => side c = lit "RIGHT")
            (lineno_exist_loop (_comments self) (Report.line report) p
               (Report.message report)).1) as Hloop.
  { apply (Forall_fmap side (fun s => s = lit "RIGHT")).
    rewrite (lineno_exist_loop_keeps side) by done.
    by apply Forall_fmap. }
  destruct (lineno_exist_loop _ _ _ _).2; [done|].
  apply Forall_app. split; [done|]. by constructor.
Qed.

Lemma see_prefix (seen : list (str * Z)) x : seen `prefix_of` see seen x.
Proof. unfold see. case_bool_decide; [done|]. by apply prefix_app_r. Qed.

Lemma foldl_see (seen xs : list (str * Z)) :
  foldl see seen xs = seen ++ filter (fun y => y ∉ seen) (first_seen xs).
Proof.
  revert seen. induction xs as [|x xs IH]; intros seen; simpl.
  - by rewrite app_nil_r.
  - rewrite IH. unfold see. case_bool_decide as Hx.
    + rewrite filter_cons_False by tauto.
      rewrite list_filter_filter. f_equal. apply list_filter_iff.
      intros y. split; [|tauto]. intros Hy. split; [done|]. congruence.
    + rewrite filter_cons_True by done.
      rewrite <- app_assoc. simpl. do 2 f_equal.
      rewrite list_filter_filter. apply list_filter_iff.
      intros y. rewrite not_elem_of_app, list_elem_of_singleton. tauto.
Qed.

Lemma add_comments_locations self reports p :
  location <$> _comments (add_comments self reports p) =
  foldl see (location <$> _comments self) ((fun r => (p, Report.line r)) <$> reports).
Proof.
  unfold add_comments. revert self.
  induction reports as [|r reports IH]; intros self; [done|].
  simpl. by rewrite IH, add_comments_body_locations.
Qed.

Lemma foldl_see_prefix (seen xs : list (str * Z)) : seen `prefix_of` foldl see seen xs.
Proof. rewrite foldl_see. by apply prefix_app_r. Qed.

Lemma add_comments_sides self reports p :
  Forall (fun c => side c = lit "RIGHT") (_comments self) ->
  Forall (fun c => side c = lit "RIGHT") (_comments (add_comments self reports p)).
Proof.
  unfold add_comments. revert self.
  induction reports as [|r reports IH]; intros self Hside; [done|].
  simpl. by apply IH, add_comments_body_sides.
Qed.

Lemma fill_labels_comments `{Label} self (current_labels : list str) :
  _comments (fill_labels self current_labels) = _comments self.
Proof. by rewrite fill_labels_unfold. Qed.

Lemma perform_sides `{Label} self (c : call) :
  Forall (fun c => side c = lit "RIGHT") (_comments self) ->
  Forall (fun c => side c = lit "RIGHT") (_comments (perform self c)).
Proof.
  intros Hside. destruct c as [reports p|message p lineno|current]; simpl.
  - by apply add_comments_sides.
  - apply Forall_app. split; [done|]. by constructor.
  - by rewrite fill_labels_comments.
Qed.

Lemma run_sides `{Label} self (calls : list call) :
  Forall (fun c => side c = lit "RIGHT") (_comments self) ->
  Forall (fun c => side c = lit "RIGHT") (_comments (run self calls)).
Proof.
  unfold run. revert self.
  induction calls as [|c calls IH]; intros self Hside; [done|].
  simpl. by apply IH, perform_sides.
Qed.

Lemma perform_prefix `{Label} self (c : call) :
  (location <$> _comments self) `prefix_of` (location <$> _comments (perform self c)).
Proof.
  destruct c as [reports p|message p lineno|current]; simpl.
  - rewrite add_comments_locations. apply foldl_see_prefix.
  - rewrite fmap_app. by apply prefix_app_r.
  - by rewrite fill_labels_comments.
Qed.

Lemma add_comments_all_locations self (calls : list (list Report.t * str)) :
  location <$> _comments (add_comments_all self calls) =
  foldl see (location <$> _comments self)
    ((fun e => (e.1, Report.line e.2)) <$> events calls).
Proof.
  unfold add_comments_all, events. revert self.
  induction calls as [|c calls IH]; intros self; [done|].
  rewrite bind_cons, fmap_app, foldl_app. simpl.
  rewrite IH, add_comments_locations. by rewrite <- list_fmap_compose.
Qed.
End Collect.

(** C7. After any run of calls of the public interface on a new record,
    [collect_comments] returns, for each accumulated comment and in the order
    of the comment list, the four items [body], [path], [line], [side] of that
    comment with [side] the string [RIGHT], the comments made by [add_error]
    included. No call reorders or drops what is there: the locations held
    before a call are a prefix of those held after it. After a run of
    [add_comments] calls the locations are those of the reports, in the
    order they were first seen. *)
Theorem collect_comments_wire_shape_and_order :
  forall `{Label},
    (forall calls : list call,
       let self := run new_record calls in
       collect_comments self = wire_comment <$> _comments self
       /\ forall c : call,
            (location <$> _comments self)
              `prefix_of` (location <$> _comments (perform self c)))
    /\ (forall calls : list (list Report.t * str),
         location <$> _comments (add_comments_all new_record calls) =
         first_seen ((fun e => (e.1, Report.line e.2)) <$> events calls)).
Proof.
  intros L. split.
  - intros calls self. split; [|apply perform_prefix].
    unfold collect_comments.
    assert (Forall (fun c => side c = lit "RIGHT") (_comments self)) as Hside
      by (apply run_sides; constructor).
    induction Hside as [|c cs Hc _ IH]; [done|].
    rewrite !fmap_cons, IH. f_equal.
    unfold asdict, wire_comment. by rewrite Hc.
  - intros calls. rewrite add_comments_all_locations, foldl_see. simpl.
    rewrite (list_filter_iff _ (fun _ => True)); [|intros y; split; [done|]].
    + clear. induction (first_seen _) as [|x xs IH]; [done|].
      by rewrite filter_cons_True, IH.
    + intros _. apply not_elem_of_nil.
Qed.

(** ** The naming rule *)

Section Naming.
Context `{UnicodeData}.

Lemma dict_get_namekey (value : str) : dict_get [(namekey, value)] namekey = Some value.
Proof. unfold dict_get. by rewrite bool_decide_eq_true_2. Qed.

(** A name with an uppercase letter, standing directly as the [name] or
    the [target] of a node, is reported with the role given. *)
Lemma validate_by_name (name nodetype : str) :
  _any_uppercase_letter name = true ->
  _validate_snake_case_name (FunctionDef name) nodetype =
    Some [mkRuleReport (FunctionDef name) (INVALID_SNAKE_CASE_NAME nodetype name)]
  /\ _validate_snake_case_name (Param name) nodetype =
    Some [mkRuleReport (Param name) (INVALID_SNAKE_CASE_NAME nodetype name)].
Proof.
  intros Hup. unfold _validate_snake_case_name, extract_by_name, match_Name.
  rewrite Hup. cbn [py_or]. by rewrite dict_get_namekey.
Qed.

Lemma validate_by_target (name nodetype : str) (value : option expr) :
  _any_uppercase_letter name = true ->
  Forall (fun n =>
      _validate_snake_case_name n nodetype =
      Some [mkRuleReport n (INVALID_SNAKE_CASE_NAME nodetype name)])
    [AnnAssign (Name name) value; AssignTarget (Name name);
     For (Name name); NamedExpr (Name name)].
Proof.
  intros Hup. repeat constructor;
    unfold _validate_snake_case_name, extract_by_name, extract_by_target, match_Name;
    rewrite Hup; cbn [py_or]; by rewrite dict_get_namekey.
Qed.

(** A name without uppercase letter is not reported. *)
Lemma validate_lowercase (name nodetype : str) (value : option expr) :
  _any_uppercase_letter name = false ->
  Forall (fun n => _validate_snake_case_name n nodetype = Some [])
    [FunctionDef name; Param name; AnnAssign (Name name) value;
     AssignTarget (Name name); For (Name name); NamedExpr (Name name)].
Proof.
  intros Hup. repeat constructor;
    unfold _validate_snake_case_name, extract_by_name, extract_by_target, match_Name;
    by rewrite Hup.
Qed.
End Naming.

(** C8, as stated, fails: the class name made of the ideograph U+4E2D does
    not start with an uppercase letter, and the rule reports nothing for
    it, because its first character is not lowercase either. *)
Lemma class_name_without_case_not_reported :
  @visit_ClassDef latin1 (ClassDef [ideograph]) = Some []
  /\ ~ @starts_uppercase latin1 [ideograph]
  /\ ~ @class_name_rule_as_stated latin1 [ideograph].
Proof.
  assert (~ @starts_uppercase latin1 [ideograph]) as Hcase.
  { intros (first & rest & [= <- <-] & Hup). vm_compute in Hup. discriminate. }
  split; [reflexivity|]. split; [exact Hcase|].
  intros [Hreport _]. specialize (Hreport (or_introl Hcase)).
  vm_compute in Hreport. discriminate.
Qed.

(** C8, amended. For a class definition node (its name is not empty), the
    rule reports exactly one violation, whose message holds the class name
    verbatim between the two parts of the template, if and only if the
    first character of the name is a lowercase letter or the name contains
    an underscore; otherwise it reports nothing for that node. *)
Theorem class_name_rule :
  forall `{UnicodeData} (first : char) (rest : str),
    let nodename := first :: rest in
    visit (ClassDef nodename) =
      Some (if decide (islower first = true \/ underscore ∈ nodename)
            then [mkRuleReport (ClassDef nodename) (INVALID_CAMEL_CASE_NAME nodename)]
            else [])
    /\ INVALID_CAMEL_CASE_NAME nodename =
       lit "Class names should follow the [`CamelCase`](https://en.wikipedia.org/wiki/Camel_case) naming convention. Please update the name of the class `"
       ++ nodename ++ lit "` accordingly. ".
Proof.
  intros U first rest nodename. subst nodename. split.
  - unfold visit, visit_ClassDef. cbv beta iota.
    destruct (decide (islower first = true \/ underscore ∈ first :: rest))
      as [[Hlow|Hus]|Hno].
    + by rewrite Hlow.
    + by rewrite (bool_decide_eq_true_2 _ Hus), orb_true_r.
    + destruct (islower first) eqn:Hlow; [tauto|].
      rewrite bool_decide_eq_false_2; [done|tauto].
  - unfold INVALID_CAMEL_CASE_NAME.
    rewrite (app_assoc (lit _) (lit _)), (app_assoc (lit _ ++ lit _) (lit _)).
    by f_equal.
Qed.

(** C9 at the failing input. In [Aa, b = 1, 2] the name [Aa] has an
    uppercase letter and is bound by the assignment, but the target of the
    [AssignTarget] is a [Tuple], not a [Name]: the rule reports nothing
    for it, and likewise for the tuple target of a [for] loop. *)
Theorem tuple_target_not_reported :
  @_any_uppercase_letter latin1 (lit "Aa") = true
  /\ @visit latin1 (AssignTarget (Tuple [Name (lit "Aa"); Name (lit "b")])) = Some []
  /\ @visit latin1 (For (Tuple [Name (lit "Aa"); Name (lit "b")])) = Some [].
Proof. by vm_compute. Qed.

(** C10. For an annotated assignment without a value, such as [Var: int],
    the rule reports nothing, whatever the annotated target is. *)
Theorem bare_annotation_not_reported :
  forall `{UnicodeData} (target : expr),
    visit (AnnAssign target None) = Some []
    /\ forall name : str, visit (AnnAssign (Name name) None) = Some [].
Proof. by intros U target. Qed.

(** ** Concrete runs *)

(** Two reports on line 3 of [a.py] end up in one comment, a third on
    line 4 in a second. *)
Example add_comments_merges_line_3 :
  _comments (add_comments new_record
    [ Report.mk (lit "RequireDoctestRule") (lit "first") 3;
      Report.mk (lit "RequireTypeHintRule") (lit "second") 3;
      Report.mk (lit "RequireTypeHintRule") (lit "other") 4 ] (lit "a.py")) =
  [ new_ReviewComment (lit "first" ++ LF ++ LF ++ lit "second") (lit "a.py") 3;
    new_ReviewComment (lit "other") (lit "a.py") 4 ].
Proof. reflexivity. Qed.

(** A violated rule whose label is already on the pull request queues
    nothing; the labels of the rules that did not fire and are on the pull
    request are queued for removal. *)
Example fill_labels_label_present :
  let self := @fill_labels sample_labels one_comment_record
                [lit "require tests"; lit "require type hints"] in
  labels_to_add self = [] /\ labels_to_remove self = [lit "require type hints"].
Proof. by vm_compute. Qed.

Example fill_labels_label_missing :
  let self := @fill_labels sample_labels one_comment_record [] in
  labels_to_add self = [lit "require tests"] /\ labels_to_remove self = [].
Proof. by vm_compute. Qed.

(** The test cases of the rule, node by node. *)
Example valid_cases :
  Forall (fun n => @visit latin1 n = Some [])
    [ AnnAssign (Name (lit "type_hint")) None;
      AnnAssign (Name (lit "type_hint_var")) (Some OtherExpression);
      AssignTarget (Name (lit "hello"));
      AssignTarget (Name (lit "snake_case"));
      For (Name (lit "iteration"));
      ClassDef (lit "SomeClass");
      ClassDef (lit "One");
      FunctionDef (lit "oneword");
      FunctionDef (lit "some_extra_words");
      AssignTarget (Name (lit "all"));
      AssignTarget (Name (lit "names_are"));
      AssignTarget (Name (lit "valid_in_multiple_assign"));
      NamedExpr (Name (lit "walrus"));
      Param (lit "valid_param") ].
Proof. repeat constructor. Qed.

Example invalid_cases :
  Forall (fun '(n, message) => messages (@visit latin1 n) = Some [message])
    [ (AnnAssign (Name (lit "type_Hint_Var")) (Some OtherExpression),
       INVALID_SNAKE_CASE_NAME (lit "variable") (lit "type_Hint_Var"));
      (AssignTarget (Name (lit "Hello")),
       INVALID_SNAKE_CASE_NAME (lit "variable") (lit "Hello"));
      (AssignTarget (Name (lit "ranDom_UpPercAse")),
       INVALID_SNAKE_CASE_NAME (lit "variable") (lit "ranDom_UpPercAse"));
      (For (Name (lit "RandomCaps")),
       INVALID_SNAKE_CASE_NAME (lit "variable") (lit "RandomCaps"));
      (ClassDef (lit "lowerPascalCase"),
       INVALID_CAMEL_CASE_NAME (lit "lowerPascalCase"));
      (ClassDef (lit "all_lower_case"),
       INVALID_CAMEL_CASE_NAME (lit "all_lower_case"));
      (FunctionDef (lit "oneWordInvalid"),
       INVALID_SNAKE_CASE_NAME (lit "function") (lit "oneWordInvalid"));
      (FunctionDef (lit "Pascal_Case"),
       INVALID_SNAKE_CASE_NAME (lit "function") (lit "Pascal_Case"));
      (AssignTarget (Name (lit "Invalid")),
       INVALID_SNAKE_CASE_NAME (lit "variable") (lit "Invalid"));
      (NamedExpr (Name (lit "waLRus")),
       INVALID_SNAKE_CASE_NAME (lit "variable") (lit "waLRus"));
      (Param (lit "invalidParam"),
       INVALID_SNAKE_CASE_NAME (lit "parameter") (lit "invalidParam")) ].
Proof. repeat constructor. Qed.


(** ** Further properties of the record *)

Lemma with_comments_id (self : PullRequestReviewRecord) :
  with_comments self (_comments self) = self.
Proof. by destruct self. Qed.

Lemma lineno_exist_unfold (self : PullRequestReviewRecord) (l : Z) (p text : str) :
  _lineno_exist self l p text =
  (with_comments self (lineno_exist_loop (_comments self) l p text).1,
   (lineno_exist_loop (_comments self) l p text).2).
Proof. unfold _lineno_exist. by destruct (lineno_exist_loop _ _ _ _). Qed.

(** On a hit the loop has split the list at the first comment of the
    location. *)
Lemma lineno_exist_loop_hit (cs : list ReviewComment) (l : Z) (p text : str) :
  (lineno_exist_loop cs l p text).2 = true ->
  exists pre c post,
    cs = pre ++ c :: post
    /\ Forall (fun c' => at_location l p c' = false) pre
    /\ at_location l p c = true
    /\ (lineno_exist_loop cs l p text).1 = pre ++ append_body c text :: post.
Proof.
  induction cs as [|c cs IH]; [done|]. cbn [lineno_exist_loop].
  destruct (at_location l p c) eqn:Hat.
  - intros _. by exists [], c, cs.
  - destruct (lineno_exist_loop cs l p text) as [rest' found]. cbn [fst snd] in *.
    intros Hfound. destruct (IH Hfound) as (pre & c0 & post & -> & Hpre & Hc0 & ->).
    exists (c :: pre), c0, post. repeat split; [by constructor|done].
Qed.

Lemma at_location_true (l : Z) (p : str) (c : ReviewComment) :
  at_location l p c = true <-> line c = l /\ path c = p.
Proof.
  unfold at_location. rewrite andb_true_iff, !bool_decide_eq_true. tauto.
Qed.

(** X1. [_lineno_exist] answers [True] exactly when the record holds a
    comment on the given line of the given file, and when it answers [False]
    it has left the record as it was. *)
Theorem lineno_exist_answer :
  forall (self : PullRequestReviewRecord) (lineno : Z) (filepath text : str),
    ((_lineno_exist self lineno filepath text).2 = true <->
       exists comment, comment ∈ _comments self
                       /\ line comment = lineno /\ path comment = filepath)
    /\ ((_lineno_exist self lineno filepath text).2 = false ->
        (_lineno_exist self lineno filepath text).1 = self).
Proof.
  intros self lineno filepath text. rewrite lineno_exist_unfold. cbn [fst snd].
  split.
  - rewrite lineno_exist_loop_found, bool_decide_eq_true, list_elem_of_fmap.
    split.
    + intros (c & [= Hp Hl] & Hin). by exists c.
    + intros (c & Hin & Hl & Hp). exists c. unfold location. by rewrite Hl, Hp.
  - intros Hmiss. rewrite (lineno_exist_loop_miss _ _ _ _ Hmiss).
    apply with_comments_id.
Qed.

(** X2. When [_lineno_exist] answers [True] it has extended the body of
    the first comment at the location by a blank line and the text, and
    nothing else: the comments before it (none of them at the location) and
    after it (even those at the same location), the label lists and the
    violated rules are as they were. *)
Theorem lineno_exist_extends_first_match :
  forall (self : PullRequestReviewRecord) (lineno : Z) (filepath text : str),
    (_lineno_exist self lineno filepath text).2 = true ->
    exists before comment after,
      _comments self = before ++ comment :: after
      /\ (forall c, c ∈ before -> ~ (line c = lineno /\ path c = filepath))
      /\ line comment = lineno /\ path comment = filepath
      /\ (_lineno_exist self lineno filepath text).1 =
         with_comments self
           (before
            ++ mkReviewComment (body comment ++ LF ++ LF ++ text) (path comment)
                 (line comment) (side comment)
            :: after).
Proof.
  intros self lineno filepath text. rewrite lineno_exist_unfold. cbn [fst snd].
  intros (pre & c & post & Hcs & Hpre & Hc & Hloop)%lineno_exist_loop_hit.
  exists pre, c, post. apply at_location_true in Hc as [Hl Hp].
  repeat split; [done| |done|done|by rewrite Hloop].
  intros c' Hin Hat. apply at_location_true in Hat.
  rewrite Forall_forall in Hpre. specialize (Hpre c' Hin). congruence.
Qed.

Lemma lineno_exist_extends_first_match_witness :
  (_lineno_exist one_comment_record 1 (lit "a.py") (lit "more")).2 = true
  /\ exists before comment after,
      _comments one_comment_record = before ++ comment :: after
      /\ (forall c, c ∈ before -> ~ (line c = 1 /\ path c = lit "a.py"))
      /\ line comment = 1 /\ path comment = lit "a.py"
      /\ (_lineno_exist one_comment_record 1 (lit "a.py") (lit "more")).1 =
         with_comments one_comment_record
           (before
            ++ mkReviewComment (body comment ++ LF ++ LF ++ lit "more") (path comment)
                 (line comment) (side comment)
            :: after).
Proof.
  assert ((_lineno_exist one_comment_record 1 (lit "a.py") (lit "more")).2 = true)
    as Hfound by reflexivity.
  split; [exact Hfound|].
  exact (lineno_exist_extends_first_match one_comment_record 1 (lit "a.py")
           (lit "more") Hfound).
Defined.

Lemma see_NoDup (seen : list (str * Z)) (x : str * Z) :
  NoDup seen -> NoDup (see seen x).
Proof.
  unfold see. intros Hseen. case_bool_decide as Hx; [done|].
  apply NoDup_app. repeat split; [done| |apply NoDup_singleton].
  by intros y Hy ->%list_elem_of_singleton.
Qed.

Lemma foldl_see_NoDup (seen xs : list (str * Z)) :
  NoDup seen -> NoDup (foldl see seen xs).
Proof.
  revert seen. induction xs as [|x xs IH]; intros seen Hseen; [done|].
  simpl. by apply IH, see_NoDup.
Qed.

(** X3. [add_comments] keeps a record with at most one comment per
    location that way: when no two comments of the record share file and
    line before the call, none do after it. *)
Theorem add_comments_keeps_locations_unique :
  forall (self : PullRequestReviewRecord) (reports : list Report.t) (filepath : str),
    NoDup (location <$> _comments self) ->
    NoDup (location <$> _comments (add_comments self reports filepath)).
Proof.
  intros self reports filepath Hunique.
  rewrite add_comments_locations. by apply foldl_see_NoDup.
Qed.

Lemma add_comments_keeps_locations_unique_witness :
  NoDup (location <$> _comments one_comment_record)
  /\ NoDup (location <$> _comments
       (add_comments one_comment_record
          [ Report.mk (lit "RequireTypeHintRule") (lit "no hint") 1;
            Report.mk (lit "RequireTypeHintRule") (lit "no hint") 2 ] (lit "a.py"))).
Proof.
  assert (NoDup (location <$> _comments one_comment_record)) as Hunique.
  { apply (bool_decide_unpack _). vm_compute. exact I. }
  split; [exact Hunique|].
  exact (add_comments_keeps_locations_unique one_comment_record _ (lit "a.py") Hunique).
Defined.

Lemma extends_comment_refl (c : ReviewComment) : extends_comment c c.
Proof. by repeat split. Qed.

Lemma extends_comment_trans (a b c : ReviewComment) :
  extends_comment a b -> extends_comment b c -> extends_comment a c.
Proof.
  intros (Hl1 & Hs1 & Hb1) (Hl2 & Hs2 & Hb2).
  repeat split; [congruence|congruence|by etrans].
Qed.

Lemma extends_comment_append_body (c : ReviewComment) (text : str) :
  extends_comment c (append_body c text).
Proof. repeat split. simpl. by apply prefix_app_r. Qed.

Lemma Forall2_extends_refl (cs : list ReviewComment) : Forall2 extends_comment cs cs.
Proof. induction cs; constructor; [apply extends_comment_refl|done]. Qed.

Lemma lineno_exist_loop_extends (cs : list ReviewComment) (l : Z) (p text : str) :
  Forall2 extends_comment cs (lineno_exist_loop cs l p text).1.
Proof.
  induction cs as [|c cs IH]; [constructor|]. cbn [lineno_exist_loop].
  destruct (at_location l p c).
  - constructor; [apply extends_comment_append_body|apply Forall2_extends_refl].
  - destruct (lineno_exist_loop cs l p text) as [rest' found]. cbn [fst] in *.
    constructor; [apply extends_comment_refl|done].
Qed.

Lemma add_comments_body_extends (p : str) (self : PullRequestReviewRecord)
    (report : Report.t) :
  exists kept added,
    _comments (add_comments_body p self report) = kept ++ added
    /\ Forall2 extends_comment (_comments self) kept.
Proof.
  rewrite add_comments_body_comments. cbv zeta.
  pose proof (lineno_exist_loop_extends (_comments self) (Report.line report) p
                (Report.message report)) as Hloop.
  destruct (lineno_exist_loop _ _ _ _).2.
  - eexists _, []. by rewrite app_nil_r.
  - by eexists _, [_].
Qed.

(** X4. [add_comments] loses no feedback: the comment list after the call
    starts with the comments that were there, in the same order and at the
    same file, line and side, each with a body that starts with its old
    body; what the call creates comes after them. *)
Theorem add_comments_keeps_feedback :
  forall (self : PullRequestReviewRecord) (reports : list Report.t) (filepath : str),
    exists kept added,
      _comments (add_comments self reports filepath) = kept ++ added
      /\ Forall2 extends_comment (_comments self) kept.
Proof.
  intros self reports filepath. unfold add_comments. revert self.
  induction reports as [|r reports IH]; intros self.
  - exists (_comments self), []. split; [by rewrite app_nil_r|].
    apply Forall2_extends_refl.
  - simpl.
    destruct (add_comments_body_extends filepath self r) as (k1 & a1 & H1 & Hk1).
    destruct (IH (add_comments_body filepath self r)) as (k2 & a2 & H2 & Hk2).
    rewrite H1 in Hk2.
    apply Forall2_app_inv_l in Hk2 as (k2a & k2b & Hk2a & _ & ->).
    exists k2a, (k2b ++ a2). split; [by rewrite H2, app_assoc|].
    clear -Hk1 Hk2a. revert k2a Hk2a.
    induction Hk1 as [|c c1 cs k1 Hc _ IHk]; intros k2a Hk2a.
    + by apply Forall2_nil_inv_l in Hk2a as ->.
    + apply Forall2_cons_inv_l in Hk2a as (c2 & k2' & Hc2 & Hk2' & ->).
      constructor; [by eapply extends_comment_trans|by apply IHk].
Qed.

Lemma see_length (seen : list (str * Z)) (x : str * Z) :
  (length seen <= length (see seen x) <= S (length seen))%nat.
Proof. unfold see. case_bool_decide; rewrite ?length_app; simpl; lia. Qed.

Lemma foldl_see_length (seen xs : list (str * Z)) :
  (length seen <= length (foldl see seen xs) <= length seen + length xs)%nat.
Proof.
  revert seen. induction xs as [|x xs IH]; intros seen; simpl; [lia|].
  specialize (IH (see seen x)). pose proof (see_length seen x). lia.
Qed.

(** X5. [add_comments] adds at most one comment for each report it is
    given and removes none. *)
Theorem add_comments_count :
  forall (self : PullRequestReviewRecord) (reports : list Report.t) (filepath : str),
    (length (_comments self)
     <= length (_comments (add_comments self reports filepath))
     <= length (_comments self) + length reports)%nat.
Proof.
  intros self reports filepath.
  pose proof (foldl_see_length (location <$> _comments self)
                ((fun r => (filepath, Report.line r)) <$> reports)) as Hlen.
  rewrite <- add_comments_locations, !length_fmap in Hlen. exact Hlen.
Qed.

Lemma lineno_exist_loop_other_file (cs : list ReviewComment) (l : Z)
    (p text other : str) :
  other <> p ->
  filter (fun c => path c = other) (lineno_exist_loop cs l p text).1 =
  filter (fun c => path c = other) cs.
Proof.
  intros Hne. induction cs as [|c cs IH]; [done|]. cbn [lineno_exist_loop].
  destruct (at_location l p c) eqn:Hat.
  - apply at_location_true in Hat as [_ Hp]. cbn [fst].
    rewrite !filter_cons_False; [done|congruence|simpl; congruence].
  - destruct (lineno_exist_loop cs l p text) as [rest' found]. cbn [fst] in *.
    by rewrite !filter_cons, IH.
Qed.

(** X6. The comments of the other files are out of reach of
    [add_comments]: a call for one file leaves the comments of every other
    file as they were, bodies included. *)
Theorem add_comments_other_files_untouched :
  forall (self : PullRequestReviewRecord) (reports : list Report.t)
         (filepath other : str),
    other <> filepath ->
    filter (fun c => path c = other) (_comments (add_comments self reports filepath)) =
    filter (fun c => path c = other) (_comments self).
Proof.
  intros self reports filepath other Hne. unfold add_comments. revert self.
  induction reports as [|r reports IH]; intros self; [done|].
  simpl. rewrite IH, add_comments_body_comments. cbv zeta.
  pose proof (lineno_exist_loop_other_file (_comments self) (Report.line r)
                filepath (Report.message r) other Hne) as Hloop.
  destruct (lineno_exist_loop _ _ _ _).2; [done|].
  rewrite filter_app, Hloop, filter_cons_False, filter_nil, app_nil_r; [done|].
  simpl. congruence.
Qed.

Lemma add_comments_other_files_untouched_witness :
  lit "a.py" <> lit "b.py"
  /\ filter (fun c => path c = lit "a.py")
       (_comments (add_comments one_comment_record
          [Report.mk (lit "RequireTypeHintRule") (lit "no hint") 1] (lit "b.py"))) =
     filter (fun c => path c = lit "a.py") (_comments one_comment_record).
Proof.
  assert (lit "a.py" <> lit "b.py") as Hne by (vm_compute; discriminate).
  split; [exact Hne|].
  exact (add_comments_other_files_untouched one_comment_record _ (lit "b.py")
           (lit "a.py") Hne).
Defined.

Lemma add_comments_violated (self : PullRequestReviewRecord)
    (reports : list Report.t) (p : str) :
  _violated_rules (add_comments self reports p) =
  list_to_set (Report.code <$> reports) ∪ _violated_rules self.
Proof.
  unfold add_comments. revert self.
  induction reports as [|r reports IH]; intros self; simpl.
  - set_solver.
  - rewrite IH, add_comments_body_violated. set_solver.
Qed.

(** X7. Whatever the calls of a run, the violated rules after it are those
    of the record before it together with the codes of the reports given
    to [add_comments]: [add_error] records no rule, [fill_labels] changes
    none, and no call removes one. *)
Theorem run_violated_rules :
  forall `{Label} (self : PullRequestReviewRecord) (calls : list call),
    _violated_rules (run self calls) =
    list_to_set (reported_codes calls) ∪ _violated_rules self.
Proof.
  intros L self calls. unfold run, reported_codes. revert self.
  induction calls as [|c calls IH]; intros self.
  - simpl. set_solver.
  - rewrite bind_cons, list_to_set_app_L. simpl. rewrite IH.
    destruct c as [reports p|message p lineno|current]; simpl.
    + rewrite add_comments_violated. set_solver.
    + set_solver.
    + rewrite fill_labels_violated. set_solver.
Qed.

(** X8. [add_comments] decides nothing about labels: both label lists
    come out of it as they went in. *)
Theorem add_comments_leaves_labels :
  forall (self : PullRequestReviewRecord) (reports : list Report.t) (filepath : str),
    labels_to_add (add_comments self reports filepath) = labels_to_add self
    /\ labels_to_remove (add_comments self reports filepath) = labels_to_remove self.
Proof.
  intros self reports filepath. unfold add_comments. revert self.
  induction reports as [|r reports IH]; intros self; [done|].
  simpl. destruct (IH (add_comments_body filepath self r)) as [-> ->].
  apply add_comments_body_labels.
Qed.

(** ** Further properties of fill_labels *)

Section FillLabelsMore.
Context (violated : gset str) (current_labels : list str).
Implicit Types (acc : list str * list str) (item : str * str).
Implicit Types (items : list (str * str)).

(** Why a label is in a list: queued to be added, it is off the pull
    request and the label of a violated item; queued to be removed, it is
    on the pull request and the label of an item that was not violated. *)
Lemma fill_labels_items_sound items (todo : list (str * str)) acc :
  (forall item, item ∈ todo -> item ∈ items) ->
  (forall label, label ∈ acc.1 ->
     (label ∉ current_labels) /\ (exists rule, (rule, label) ∈ items /\ rule ∈ violated)) ->
  (forall label, label ∈ acc.2 ->
     label ∈ current_labels /\ (exists rule, (rule, label) ∈ items /\ rule ∉ violated)) ->
  let final := fill_labels_items todo violated current_labels acc in
  (forall label, label ∈ final.1 ->
     (label ∉ current_labels) /\ (exists rule, (rule, label) ∈ items /\ rule ∈ violated))
  /\ (forall label, label ∈ final.2 ->
     label ∈ current_labels /\ (exists rule, (rule, label) ∈ items /\ rule ∉ violated)).
Proof.
  revert acc. induction todo as [|[rule label] todo IH]; intros acc Hsub Hadd Hrem.
  - by split.
  - simpl. apply IH.
    + intros i Hi. apply Hsub. by right.
    + assert ((rule, label) ∈ items) as Hitem by (apply Hsub; by left).
      destruct acc as [to_add to_remove]. unfold fill_labels_body.
      repeat (case_bool_decide; simpl in * ); auto.
      intros x [Hx| ->%list_elem_of_singleton]%elem_of_app; eauto.
    + assert ((rule, label) ∈ items) as Hitem by (apply Hsub; by left).
      destruct acc as [to_add to_remove]. unfold fill_labels_body.
      repeat (case_bool_decide; simpl in * ); auto.
      intros x [Hx| ->%list_elem_of_singleton]%elem_of_app; eauto.
Qed.

Lemma fill_labels_body_prefix acc item :
  acc.1 `prefix_of` (fill_labels_body violated current_labels acc item).1
  /\ acc.2 `prefix_of` (fill_labels_body violated current_labels acc item).2.
Proof.
  destruct acc as [to_add to_remove], item as [rule label]. unfold fill_labels_body.
  repeat (case_bool_decide; simpl); split; try done; by apply prefix_app_r.
Qed.

Lemma fill_labels_items_prefix items acc :
  acc.1 `prefix_of` (fill_labels_items items violated current_labels acc).1
  /\ acc.2 `prefix_of` (fill_labels_items items violated current_labels acc).2.
Proof.
  revert acc. induction items as [|item items IH]; intros acc; [done|].
  simpl. destruct (IH (fill_labels_body violated current_labels acc item)).
  destruct (fill_labels_body_prefix acc item). split; by etrans.
Qed.

Lemma fill_labels_body_length acc item :
  (length (fill_labels_body violated current_labels acc item).1
   + length (fill_labels_body violated current_labels acc item).2
   <= S (length acc.1 + length acc.2))%nat.
Proof.
  destruct acc as [to_add to_remove], item as [rule label]. unfold fill_labels_body.
  repeat (case_bool_decide; simpl); rewrite ?length_app; simpl; lia.
Qed.

Lemma fill_labels_items_length items acc :
  (length (fill_labels_items items violated current_labels acc).1
   + length (fill_labels_items items violated current_labels acc).2
   <= length acc.1 + length acc.2 + length items)%nat.
Proof.
  revert acc. induction items as [|item items IH]; intros acc; simpl; [lia|].
  specialize (IH (fill_labels_body violated current_labels acc item)).
  pose proof (fill_labels_body_length acc item). lia.
Qed.

(** The loop in closed form, when the labels of the items are distinct
    and none is queued yet. *)
Lemma fill_labels_items_closed_form items acc :
  NoDup items.*2 ->
  (forall label, label ∈ items.*2 -> (label ∉ acc.1) /\ label ∉ acc.2) ->
  fill_labels_items items violated current_labels acc =
  (acc.1 ++ (filter (fun item => item.1 ∈ violated /\ item.2 ∉ current_labels) items).*2,
   acc.2 ++ (filter (fun item => (item.1 ∉ violated) /\ item.2 ∈ current_labels) items).*2).
Proof.
  revert acc. induction items as [|[rule label] items IH]; intros acc Hnodup Hfresh.
  - simpl. rewrite !app_nil_r. by destruct acc.
  - rewrite fmap_cons in Hnodup. apply NoDup_cons in Hnodup as [Hlabel Hnodup].
    destruct (Hfresh label) as [Hadd Hrem]; [by left|].
    assert (forall x, x ∈ items.*2 -> x <> label /\ (x ∉ acc.1) /\ x ∉ acc.2) as Hrest.
    { intros x Hx. split; [by intros ->|]. apply Hfresh. by right. }
    simpl. rewrite IH; [|done|].
    + destruct acc as [to_add to_remove]. unfold fill_labels_body. simpl in *.
      rewrite !filter_cons. simpl.
      repeat case_bool_decide; repeat case_decide; simpl;
        rewrite <- ?app_assoc; simpl; try done; tauto.
    + intros x Hx. destruct (Hrest x Hx) as (Hne & Hx1 & Hx2).
      destruct acc as [to_add to_remove]. unfold fill_labels_body. simpl in *.
      repeat (case_bool_decide; simpl);
        rewrite ?not_elem_of_app, ?list_elem_of_singleton; tauto.
Qed.
End FillLabelsMore.

(** X9. On a record whose label lists are empty, [fill_labels] queues a
    label to be added exactly when the label is not on the pull request and
    is the label of a violated rule of the mapping, and queues it to be
    removed exactly when it is on the pull request and is the label of a
    rule of the mapping that was not violated. *)
Theorem fill_labels_decision :
  forall `{Label} (comments : list ReviewComment) (violated : gset str)
         (current_labels : list str) (label : str),
    let self := fill_labels (mkRecord [] [] comments violated) current_labels in
    (label ∈ labels_to_add self <->
       (label ∉ current_labels)
       /\ (exists rule, (rule, label) ∈ RULE_TO_LABEL /\ rule ∈ violated))
    /\ (label ∈ labels_to_remove self <->
       label ∈ current_labels
       /\ (exists rule, (rule, label) ∈ RULE_TO_LABEL /\ rule ∉ violated)).
Proof.
  intros L comments violated current_labels label self. subst self.
  rewrite fill_labels_unfold. cbv zeta. unfold with_labels.
  cbn [labels_to_add labels_to_remove _violated_rules].
  set (final := fill_labels_items RULE_TO_LABEL violated current_labels ([], [])).
  destruct (fill_labels_items_sound violated current_labels RULE_TO_LABEL
              RULE_TO_LABEL ([], [])) as [Hadd Hrem];
    [done|by intros ? ?%elem_of_nil|by intros ? ?%elem_of_nil|].
  fold final in Hadd, Hrem.
  pose proof (fill_labels_items_settles violated current_labels RULE_TO_LABEL ([], []))
    as Hsettled.
  fold final in Hsettled. rewrite Forall_forall in Hsettled.
  split; (split; [auto|]); intros (Hcur & rule & Hitem & Hrule);
    specialize (Hsettled _ Hitem); unfold settled in Hsettled; simpl in Hsettled.
  - rewrite bool_decide_eq_true_2 in Hsettled by done. tauto.
  - rewrite bool_decide_eq_false_2 in Hsettled by done. tauto.
Qed.

(** X10. [fill_labels] only appends to the label lists: what was queued
    before the call is still there, first and in the same order, and the
    comments and the violated rules are not touched. *)
Theorem fill_labels_only_appends :
  forall `{Label} (self : PullRequestReviewRecord) (current_labels : list str),
    labels_to_add self `prefix_of` labels_to_add (fill_labels self current_labels)
    /\ labels_to_remove self
         `prefix_of` labels_to_remove (fill_labels self current_labels)
    /\ _comments (fill_labels self current_labels) = _comments self
    /\ _violated_rules (fill_labels self current_labels) = _violated_rules self.
Proof.
  intros L self current_labels. rewrite fill_labels_unfold. cbv zeta.
  unfold with_labels. cbn [labels_to_add labels_to_remove _comments _violated_rules].
  destruct (fill_labels_items_prefix (_violated_rules self) current_labels
              RULE_TO_LABEL (labels_to_add self, labels_to_remove self)).
  by repeat split.
Qed.

(** X11. One call of [fill_labels] queues at most three labels, one for
    each rule of the mapping, over the two lists together. *)
Theorem fill_labels_queues_at_most_three :
  forall `{Label} (self : PullRequestReviewRecord) (current_labels : list str),
    (length (labels_to_add (fill_labels self current_labels))
     + length (labels_to_remove (fill_labels self current_labels))
     <= length (labels_to_add self) + length (labels_to_remove self) + 3)%nat.
Proof.
  intros L self current_labels. rewrite fill_labels_unfold. cbv zeta.
  unfold with_labels. cbn [labels_to_add labels_to_remove].
  apply (fill_labels_items_length (_violated_rules self) current_labels
           RULE_TO_LABEL (labels_to_add self, labels_to_remove self)).
Qed.

(** X12. When the three labels of the mapping are distinct, [fill_labels]
    on a record with empty label lists leaves them in the order of the
    mapping: to add, the labels of the violated rules that are not on the
    pull request; to remove, the labels of the other rules that are on it. *)
Theorem fill_labels_in_mapping_order :
  forall `{Label},
    NoDup RULE_TO_LABEL.*2 ->
    forall (comments : list ReviewComment) (violated : gset str)
           (current_labels : list str),
      let self := fill_labels (mkRecord [] [] comments violated) current_labels in
      labels_to_add self =
        (filter (fun item => item.1 ∈ violated /\ item.2 ∉ current_labels)
           RULE_TO_LABEL).*2
      /\ labels_to_remove self =
        (filter (fun item => (item.1 ∉ violated) /\ item.2 ∈ current_labels)
           RULE_TO_LABEL).*2.
Proof.
  intros L Hdistinct comments violated current_labels self. subst self.
  rewrite fill_labels_unfold. cbv zeta. unfold with_labels.
  cbn [labels_to_add labels_to_remove _violated_rules].
  rewrite fill_labels_items_closed_form; [done|done|].
  intros label _. split; apply not_elem_of_nil.
Qed.

Lemma fill_labels_in_mapping_order_witness :
  NoDup (@RULE_TO_LABEL sample_labels).*2
  /\ (let self := @fill_labels sample_labels
                   (mkRecord [] [] [] {[ lit "RequireDoctestRule" ]})
                   [lit "require type hints"] in
      labels_to_add self =
        (filter (fun item => item.1 ∈ ({[ lit "RequireDoctestRule" ]} : gset str)
                             /\ item.2 ∉ [lit "require type hints"])
           (@RULE_TO_LABEL sample_labels)).*2
      /\ labels_to_remove self =
        (filter (fun item => (item.1 ∉ ({[ lit "RequireDoctestRule" ]} : gset str))
                             /\ item.2 ∈ [lit "require type hints"])
           (@RULE_TO_LABEL sample_labels)).*2).
Proof.
  assert (NoDup (@RULE_TO_LABEL sample_labels).*2) as Hdistinct.
  { apply (bool_decide_unpack _). vm_compute. exact I. }
  split; [exact Hdistinct|].
  exact (@fill_labels_in_mapping_order sample_labels Hdistinct []
           {[ lit "RequireDoctestRule" ]} [lit "require type hints"]).
Defined.

(** ** Errors and later reports, and the collected output *)

(** X13. A comment made by [add_error] takes in the reports that come
    later for its line: when the location was free before the error, then
    after any run of [add_comments] calls it holds one comment, whose body
    is the error text followed by the messages delivered there, a blank
    line before each. *)
Theorem error_comment_takes_later_reports :
  forall (self : PullRequestReviewRecord) (message filepath : str)
         (lineno : option Z) (calls : list (list Report.t * str)),
    comments_at (default 1 lineno) filepath (_comments self) = [] ->
    comments_at (default 1 lineno) filepath
      (_comments (add_comments_all (add_error self message filepath lineno) calls)) =
    [new_ReviewComment
       (join blank_line
          (error_body message filepath :: delivered (default 1 lineno) filepath calls))
       filepath (default 1 lineno)].
Proof.
  intros self message filepath lineno calls Hfree.
  rewrite add_comments_all_at.
  assert (comments_at (default 1 lineno) filepath
            (_comments (add_error self message filepath lineno)) =
          [new_ReviewComment (error_body message filepath) filepath (default 1 lineno)])
    as ->.
  { unfold comments_at in *. unfold add_error. cbn [_comments with_comments].
    rewrite List.filter_app, Hfree. simpl. rewrite at_location_new.
    destruct lineno; simpl; by rewrite !bool_decide_eq_true_2. }
  unfold absorb. by rewrite foldl_append_body_new.
Qed.

Lemma error_comment_takes_later_reports_witness :
  comments_at (default 1 None) (lit "a.py") (_comments new_record) = []
  /\ comments_at (default 1 None) (lit "a.py")
       (_comments (add_comments_all
          (add_error new_record (lit "boom") (lit "a.py") None)
          [([Report.mk (lit "RequireDoctestRule") (lit "no doctest") 1], lit "a.py")])) =
     [new_ReviewComment
        (join blank_line
           (error_body (lit "boom") (lit "a.py")
            :: delivered (default 1 None) (lit "a.py")
                 [([Report.mk (lit "RequireDoctestRule") (lit "no doctest") 1],
                   lit "a.py")]))
        (lit "a.py") (default 1 None)].
Proof.
  assert (comments_at (default 1 None) (lit "a.py") (_comments new_record) = [])
    as Hfree by reflexivity.
  split; [exact Hfree|].
  exact (error_comment_takes_later_reports new_record (lit "boom") (lit "a.py") None
           _ Hfree).
Defined.

Lemma asdict_inj (c c' : ReviewComment) : asdict c = asdict c' -> c = c'.
Proof. destruct c, c'. unfold asdict. simpl. by intros [= -> -> -> ->]. Qed.

(** X14. [collect_comments] loses nothing of the comments: two records
    with the same collected output hold the same comments, in the same
    order. *)
Theorem collect_comments_determines_comments :
  forall self self' : PullRequestReviewRecord,
    collect_comments self = collect_comments self' ->
    _comments self = _comments self'.
Proof.
  intros self self'. unfold collect_comments.
  generalize (_comments self) (_comments self'). clear.
  induction l as [|c cs IH]; intros [|c' cs']; try done.
  rewrite !fmap_cons. intros Heq.
  assert (asdict c = asdict c' /\ asdict <$> cs = asdict <$> cs') as [Hc Hcs]
    by (split; congruence).
  f_equal; [by apply asdict_inj|by apply IH].
Qed.

Lemma collect_comments_determines_comments_witness :
  collect_comments (@fill_labels sample_labels one_comment_record []) =
    collect_comments one_comment_record
  /\ _comments (@fill_labels sample_labels one_comment_record []) =
     _comments one_comment_record.
Proof.
  assert (collect_comments (@fill_labels sample_labels one_comment_record []) =
          collect_comments one_comment_record) as Hsame by reflexivity.
  split; [exact Hsame|].
  exact (collect_comments_determines_comments _ _ Hsame).
Defined.

(** ** Further properties of the naming rule *)

Section NamingMore.
Context `{UnicodeData}.

Lemma validate_cases (n : node) (nodetype : str) :
  _validate_snake_case_name n nodetype = Some []
  \/ exists nodename,
       _validate_snake_case_name n nodetype =
       Some [mkRuleReport n (INVALID_SNAKE_CASE_NAME nodetype nodename)].
Proof.
  unfold _validate_snake_case_name, extract_by_name, extract_by_target, match_Name.
  destruct n as [name|name|name|target value|target|target|target];
    try destruct target as [v| | | | |];
    try destruct (_any_uppercase_letter _);
    cbn [py_or]; rewrite ?dict_get_namekey; eauto.
Qed.
End NamingMore.

(** X15. A visit raises in one case only, the class definition with an
    empty name ([nodename[0]] is out of range); the lookup of the captured
    name never fails. *)
Theorem visit_raises_only_on_empty_class_name :
  forall `{UnicodeData} (n : node), visit n = None <-> n = ClassDef [].
Proof.
  intros U n. split; [|by intros ->].
  destruct n as [[|first rest]|name|name|target [value|]|target|target|target];
    try done; unfold visit, visit_ClassDef, visit_FunctionDef, visit_Param,
      visit_AnnAssign, visit_AssignTarget, visit_For, visit_NamedExpr.
  - destruct (islower first || _); discriminate.
  - destruct (validate_cases (FunctionDef name) (lit "function")) as [->|[? ->]];
      discriminate.
  - destruct (validate_cases (Param name) (lit "parameter")) as [->|[? ->]];
      discriminate.
  - destruct (validate_cases (AnnAssign target (Some value)) (lit "variable"))
      as [->|[? ->]]; discriminate.
  - destruct (validate_cases (AssignTarget target) (lit "variable")) as [->|[? ->]];
      discriminate.
  - destruct (validate_cases (For target) (lit "variable")) as [->|[? ->]];
      discriminate.
  - destruct (validate_cases (NamedExpr target) (lit "variable")) as [->|[? ->]];
      discriminate.
Qed.

(** X16. A visit that returns reports at most one violation, and reports
    it on the node visited. *)
Theorem visit_reports_at_most_once :
  forall `{UnicodeData} (n : node) (reports : list RuleReport),
    visit n = Some reports ->
    reports = [] \/ exists message, reports = [mkRuleReport n message].
Proof.
  intros U n reports.
  destruct n as [[|first rest]|name|name|target [value|]|target|target|target];
    unfold visit, visit_ClassDef, visit_FunctionDef, visit_Param,
      visit_AnnAssign, visit_AssignTarget, visit_For, visit_NamedExpr.
  - discriminate.
  - destruct (islower first || _); intros [= <-]; eauto.
  - destruct (validate_cases (FunctionDef name) (lit "function")) as [->|[? ->]];
      intros [= <-]; eauto.
  - destruct (validate_cases (Param name) (lit "parameter")) as [->|[? ->]];
      intros [= <-]; eauto.
  - destruct (validate_cases (AnnAssign target (Some value)) (lit "variable"))
      as [->|[? ->]]; intros [= <-]; eauto.
  - intros [= <-]; eauto.
  - destruct (validate_cases (AssignTarget target) (lit "variable")) as [->|[? ->]];
      intros [= <-]; eauto.
  - destruct (validate_cases (For target) (lit "variable")) as [->|[? ->]];
      intros [= <-]; eauto.
  - destruct (validate_cases (NamedExpr target) (lit "variable")) as [->|[? ->]];
      intros [= <-]; eauto.
Qed.

Lemma visit_reports_at_most_once_witness :
  @visit latin1 (Param (lit "invalidParam")) =
    Some [mkRuleReport (Param (lit "invalidParam"))
            (INVALID_SNAKE_CASE_NAME (lit "parameter") (lit "invalidParam"))]
  /\ ([mkRuleReport (Param (lit "invalidParam"))
         (INVALID_SNAKE_CASE_NAME (lit "parameter") (lit "invalidParam"))] = []
      \/ exists message,
           [mkRuleReport (Param (lit "invalidParam"))
              (INVALID_SNAKE_CASE_NAME (lit "parameter") (lit "invalidParam"))] =
           [mkRuleReport (Param (lit "invalidParam")) message]).
Proof.
  assert (@visit latin1 (Param (lit "invalidParam")) =
          Some [mkRuleReport (Param (lit "invalidParam"))
                  (INVALID_SNAKE_CASE_NAME (lit "parameter") (lit "invalidParam"))])
    as Hvisit by reflexivity.
  split; [exact Hvisit|].
  exact (@visit_reports_at_most_once latin1 _ _ Hvisit).
Defined.

(** X17. A name that stands directly as the name of a function or of a
    parameter, or as the target of an assignment, of an annotated
    assignment with a value, of a [for] loop or of a named expression, is
    reported exactly when it has an uppercase letter, once, with the role
    [function], [parameter] or [variable] of its node and the name itself
    in the message. *)
Theorem plain_names_reported_with_role :
  forall `{UnicodeData} (name : str) (value : expr),
    Forall (fun '(n, role) =>
        visit n =
        Some (if _any_uppercase_letter name
              then [mkRuleReport n (INVALID_SNAKE_CASE_NAME role name)]
              else []))
      [ (FunctionDef name, lit "function");
        (Param name, lit "parameter");
        (AnnAssign (Name name) (Some value), lit "variable");
        (AssignTarget (Name name), lit "variable");
        (For (Name name), lit "variable");
        (NamedExpr (Name name), lit "variable") ].
Proof.
  intros U name value.
  repeat constructor;
    unfold visit, visit_FunctionDef, visit_Param, visit_AnnAssign,
      visit_AssignTarget, visit_For, visit_NamedExpr,
      _validate_snake_case_name, extract_by_name, extract_by_target, match_Name;
    destruct (_any_uppercase_letter name); cbn [py_or];
    by rewrite ?dict_get_namekey.
Qed.

(** X18. Where letters have one case at most, a class name that starts
    with a cased letter or an underscore is left alone exactly when it
    starts with an uppercase letter and has no underscore. *)
Theorem class_name_rule_on_cased_names :
  forall `{UnicodeData} (first : char) (rest : str),
    (isupper first = true -> islower first = false) ->
    isupper first = true \/ islower first = true \/ first = underscore ->
    (visit (ClassDef (first :: rest)) = Some [] <->
     isupper first = true /\ underscore ∉ first :: rest).
Proof.
  intros U first rest Hcase Hcased. unfold visit, visit_ClassDef.
  destruct (decide (underscore ∈ first :: rest)) as [Hus|Hus].
  - rewrite (bool_decide_eq_true_2 _ Hus), orb_true_r. split; [discriminate|tauto].
  - rewrite (bool_decide_eq_false_2 _ Hus), orb_false_r.
    destruct (islower first) eqn:Hlow.
    + split; [discriminate|]. intros [Hup _]. apply Hcase in Hup. discriminate.
    + split; [|done]. intros _. split; [|done].
      destruct Hcased as [?|[?| ->]]; [done|discriminate|].
      destruct Hus. by left.
Qed.

Lemma class_name_rule_on_cased_names_witness :
  (@isupper latin1 83%N = true -> @islower latin1 83%N = false)
  /\ (@isupper latin1 83%N = true \/ @islower latin1 83%N = true \/ 83%N = underscore)
  /\ (@visit latin1 (ClassDef (83%N :: lit "omeClass")) = Some [] <->
      @isupper latin1 83%N = true /\ underscore ∉ 83%N :: lit "omeClass").
Proof.
  assert (@isupper latin1 83%N = true -> @islower latin1 83%N = false) as Hcase
    by (intros _; reflexivity).
  assert (@isupper latin1 83%N = true \/ @islower latin1 83%N = true
          \/ 83%N = underscore) as Hcased by (left; reflexivity).
  split; [exact Hcase|]. split; [exact Hcased|].
  exact (@class_name_rule_on_cased_names latin1 83%N (lit "omeClass") Hcase Hcased).
Defined.
